(** * AOAI_mapping: the Node/Express backend, embedded and verified

    The backend is a single JavaScript file.  This development embeds the
    parts of it that carry the logic of the mapping report:

    - [Xsd]: [parseXsdPaths] with its local functions [childElements] and
      [walk], over the object tree that the XML parser returns;
    - [Oracle]: the decoding of the chat completion in [aoaiMapBatch];
    - [Color]: [colorForScore];
    - [Render]: the MatchScore cell of [buildExcelBuffer] and [dfToHtmlDoc];
    - [Handler]: the body of the [/api/map] route (batching, backfill, join,
      the two orderings).

    JavaScript numbers are binary64 floats: they are modelled by Rocq's
    primitive floats, so that comparisons, subtraction and rounding are the
    IEEE 754 ones the program runs.  Strings are [string], plain objects used
    as dictionaries and [Map]/[Set] instances are [gmap]/[gset], arrays are
    lists.  Exceptions are an error monad; the recursion of [walk], which the
    source does not bound, takes fuel.

    Besides these, [Source] embeds [sniffDelimiter] with the first line
    that [readSourceBufferToRows] gives it, and [Html] the function [esc]
    of [dfToHtmlDoc].

    The first part holds the embedding, the second part the definitions
    that the statements speak of, the third part the proofs of the
    properties of the specification, and the fourth part the proofs of
    further properties of the code. *)

From Stdlib Require Import ZArith List String Ascii Floats Lia.
From Stdlib Require Uint63.
From Stdlib Require Import Permutation Sorted Relations Wellfounded.
From stdpp Require Import gmap strings list.

Set Warnings "-inexact-float,-register-all".

(* ================================================================== *)
(** * Part I: the embedding *)
(* ================================================================== *)

(** ** Exceptions *)

Inductive error :=
| Error (message : string)        (* [throw new Error(message)] *)
| TypeError                       (* property read on null, call of a non-function *)
| RangeError.                     (* call stack exhausted *)

Inductive result (A : Type) :=
| Ok (a : A)
| Throw (e : error).
Arguments Ok {A} a.
Arguments Throw {A} e.

Definition bind {A B} (r : result A) (k : A -> result B) : result B :=
  match r with
  | Ok a => k a
  | Throw e => Throw e
  end.

Notation "x <- r ;; k" := (bind r (fun x => k))
  (at level 100, r at next level, right associativity, only parsing).

(** [xs.map(f)] where [f] may throw: the first exception aborts the map. *)
Fixpoint mapM {A B} (f : A -> result B) (l : list A) : result (list B) :=
  match l with
  | [] => Ok []
  | x :: l' => y <- f x ;; ys <- mapM f l' ;; Ok (y :: ys)
  end.

(** ** Numbers *)

Module Num.
Local Open Scope float_scope.

(** ToBoolean on a number: [NaN], [+0] and [-0] are falsy. *)
Definition truthy (x : float) : bool := negb (is_nan x || is_zero x).

(** [x || 0] *)
Definition or_zero (x : float) : float := if truthy x then x else 0.

(** The global [isFinite] on a number. *)
Definition isFinite (x : float) : bool := negb (is_nan x || is_infinity x).

(** [Math.min] and [Math.max] of two numbers: [NaN] is contagious and [-0]
    is below [+0]. *)
Definition Math_min (a b : float) : float :=
  if is_nan a || is_nan b then nan
  else if a <? b then a
  else if b <? a then b
  else if get_sign a then a else b.

Definition Math_max (a b : float) : float :=
  if is_nan a || is_nan b then nan
  else if a <? b then b
  else if b <? a then a
  else if get_sign a then b else a.

(** The float of an integer below [2^63] in absolute value. *)
Definition of_Z (z : Z) : float :=
  if (z <? 0)%Z then - of_uint63 (Uint63.of_Z (- z)) else of_uint63 (Uint63.of_Z z).

(** [Math.round]: the nearest integer, ties towards [+Infinity]; [NaN], the
    infinities and the zeros are returned as they are, and a negative
    argument that rounds to zero gives [-0]. *)
Definition Math_round (x : float) : float :=
  match Prim2SF x with
  | S754_finite s m e =>
      if (0 <=? e)%Z then x
      else
        let d := (2 ^ (- e))%Z in
        let r := ((2 * cond_Zopp s (Z.pos m) + d) / (2 * d))%Z in
        if (r =? 0)%Z then (if s then neg_zero else zero) else of_Z r
  | _ => x
  end.

(** The integer a finite number is, when it is one. *)
Definition to_int (x : float) : option Z :=
  match Prim2SF x with
  | S754_zero _ => Some 0%Z
  | S754_finite s m e =>
      if (0 <=? e)%Z then Some (cond_Zopp s (Z.pos m * 2 ^ e))%Z
      else if (Z.pos m mod 2 ^ (- e) =? 0)%Z then Some (cond_Zopp s (Z.pos m / 2 ^ (- e)))%Z
      else None
  | _ => None
  end.

End Num.

(** ** Strings *)

Module Str.

(** ToBoolean on a string: only the empty string is falsy. *)
Definition truthy (s : string) : bool :=
  match s with
  | EmptyString => false
  | _ => true
  end.

(** [s || d] *)
Definition or_else (s d : string) : string := if truthy s then s else d.

(** [s.split(sep)] for a separator of one character. *)
Fixpoint split (sep : ascii) (s : string) : list string :=
  match s with
  | EmptyString => [EmptyString]
  | String c s' =>
      if Ascii.eqb c sep then EmptyString :: split sep s'
      else
        match split sep s' with
        | h :: t => String c h :: t
        | [] => [String c EmptyString]
        end
  end.

(** [xs.pop()] as an expression: the last element ([split] never returns
    an empty array). *)
Definition pop (xs : list string) : string := List.last xs EmptyString.

(** [s.endsWith(c)] for a suffix of one character. *)
Fixpoint endsWith (s : string) (c : ascii) : bool :=
  match s with
  | EmptyString => false
  | String a EmptyString => Ascii.eqb a c
  | String _ s' => endsWith s' c
  end.

(** [s.replace(c, '')]: the first occurrence of the character is removed. *)
Fixpoint remove_first (c : ascii) (s : string) : string :=
  match s with
  | EmptyString => EmptyString
  | String a s' => if Ascii.eqb a c then s' else String a (remove_first c s')
  end.

Definition upper (a : ascii) : ascii :=
  let n := nat_of_ascii a in
  if (97 <=? n)%nat && (n <=? 122)%nat then ascii_of_nat (n - 32) else a.

(** [s.toUpperCase()], on ASCII. *)
Fixpoint toUpperCase (s : string) : string :=
  match s with
  | EmptyString => EmptyString
  | String a s' => String (upper a) (toUpperCase s')
  end.

(** [s.slice(i, j)] for [0 <= i <= j]. *)
Definition slice (i j : nat) (s : string) : string := String.substring i (j - i) s.

Definition hex_digit (n : Z) : ascii :=
  ascii_of_nat (Z.to_nat (if (n <? 10)%Z then 48 + n else 87 + n)%Z).

Fixpoint hex_digits (fuel : nat) (n : Z) : string :=
  match fuel with
  | O => EmptyString
  | S fuel' =>
      if (n <? 16)%Z then String (hex_digit n) EmptyString
      else hex_digits fuel' (n / 16) +:+ String (hex_digit (n mod 16)) EmptyString
  end.

(** [n.toString(16)] for an integer [n]: lower-case digits, a minus sign
    for a negative number. *)
Definition hex (n : Z) : string :=
  let digits := hex_digits (S (Z.to_nat (Z.log2 (Z.abs n)))) (Z.abs n) in
  if (n <? 0)%Z then "-" +:+ digits else digits.

(** [s.padStart(2, '0')] *)
Definition padStart2 (s : string) : string :=
  match String.length s with
  | 0 => "00"
  | 1 => "0" +:+ s
  | _ => s
  end.

Definition hex_value (a : ascii) : option Z :=
  let n := Z.of_nat (nat_of_ascii a) in
  if (48 <=? n)%Z && (n <=? 57)%Z then Some (n - 48)%Z
  else if (97 <=? n)%Z && (n <=? 102)%Z then Some (n - 87)%Z
  else if (65 <=? n)%Z && (n <=? 70)%Z then Some (n - 55)%Z
  else None.

(** The hexadecimal digits [parseInt(s, 16)] reads: the longest prefix of
    digits, and what they denote; [None] when [s] starts with no digit. *)
Fixpoint hex_prefix (s : string) (acc : option Z) : option Z :=
  match s with
  | EmptyString => acc
  | String a s' =>
      match hex_value a with
      | Some d => hex_prefix s' (Some (16 * default 0%Z acc + d)%Z)
      | None => acc
      end
  end.

(** [parseInt(s, 16)] on a string without blanks, sign or [0x] in front. *)
Definition parseInt16 (s : string) : float :=
  match hex_prefix s None with
  | Some n => Num.of_Z n
  | None => nan
  end.

(** [xs.join('')] *)
Definition join (xs : list string) : string := fold_right String.append EmptyString xs.

End Str.

(** ** JavaScript values *)

(** The values [JSON.parse] returns, with [undefined] for a property read
    that finds nothing.  The properties of an object are kept in order; a
    parsed object has no key twice. *)
Module Json.
Local Open Scope float_scope.

Inductive value :=
| VUndefined
| VNull
| VBool (b : bool)
| VNum (x : float)
| VStr (s : string)
| VArr (items : list value)
| VObj (props : list (string * value)).

(** The built-in conversions between strings and numbers, and the JSON
    parser: they belong to the engine, not to the program, and are taken as
    parameters. *)
Record builtins := {
  StringToNumber : string -> float;       (* [Number(s)] on a string *)
  NumberToString : float -> string;       (* [String(x)] on a number *)
  parseFloat : string -> float;
  toFixed1 : float -> string;             (* [x.toFixed(1)] *)
  JSON_parse : string -> option value     (* [None]: a SyntaxError *)
}.

(** ToBoolean *)
Definition truthy (v : value) : bool :=
  match v with
  | VUndefined | VNull => false
  | VBool b => b
  | VNum x => Num.truthy x
  | VStr s => Str.truthy s
  | VArr _ | VObj _ => true
  end.

(** [v || d] *)
Definition or_else (v d : value) : value := if truthy v then v else d.

Definition isArray (v : value) : bool :=
  match v with
  | VArr _ => true
  | _ => false
  end.

Fixpoint assoc {A} (k : string) (props : list (string * A)) : option A :=
  match props with
  | [] => None
  | (k', v) :: props' => if String.eqb k' k then Some v else assoc k props'
  end.

(** [v[k]] or [v.k] for the keys the program reads (none of them is a
    property of a prototype): a TypeError on [null] and [undefined],
    [undefined] on a primitive, an array, or an object without the key. *)
Definition get (v : value) (k : string) : result value :=
  match v with
  | VUndefined | VNull => Throw TypeError
  | VObj props => Ok (default VUndefined (assoc k props))
  | _ => Ok VUndefined
  end.

Fixpoint join_comma (xs : list string) : string :=
  match xs with
  | [] => EmptyString
  | [x] => x
  | x :: xs' => x +:+ "," +:+ join_comma xs'
  end.

Section Conversions.
Variable E : builtins.

(** ToString, which is also [String(v)] and [v.toString()] on these values. *)
Fixpoint ToString (v : value) : string :=
  match v with
  | VUndefined => "undefined"
  | VNull => "null"
  | VBool true => "true"
  | VBool false => "false"
  | VNum x => NumberToString E x
  | VStr s => s
  | VArr items =>
      join_comma (map (fun e => match e with
                                | VUndefined | VNull => EmptyString
                                | _ => ToString e
                                end) items)
  | VObj _ => "[object Object]"
  end.

(** ToNumber, which is [Number(v)]. *)
Definition ToNumber (v : value) : float :=
  match v with
  | VUndefined => nan
  | VNull => 0
  | VBool true => 1
  | VBool false => 0
  | VNum x => x
  | VStr s => StringToNumber E s
  | VArr _ | VObj _ => StringToNumber E (ToString v)
  end.

End Conversions.
End Json.

(** ** sniffDelimiter and the first line of the source file *)

Module Source.

(** [(firstLine.match(new RegExp('\\' + c, 'g')) || []).length] for a
    candidate [c]: the escaped character matches itself and nothing else,
    so the matches are its occurrences. *)
Fixpoint count (c : ascii) (s : string) : Z :=
  match s with
  | EmptyString => 0
  | String a s' => (if Ascii.eqb a c then 1 else 0) + count c s'
  end.

(** [[',', ';', '\t', '|']] *)
Definition candidates : list ascii := [","; ";"; "009"; "|"]%char.

(** [let best=',', bestCount=-1;
     for (const c of candidates) { const cnt = ...;
       if (cnt > bestCount) { best = c; bestCount = cnt; } }
     return best;] *)
Definition sniffDelimiter (firstLine : string) : ascii :=
  fst (foldl (fun st c =>
                let cnt := count c firstLine in
                if (snd st <? cnt)%Z then (c, cnt) else st)
             (","%char, (-1)%Z) candidates).

(** [s] starts with a line feed. *)
Definition at_line_feed (s : string) : bool :=
  match s with
  | String a _ => Ascii.eqb a "010"
  | EmptyString => false
  end.

(** [head.split(/\r?\n/)[0]]: the text before the first line feed, without
    the carriage return that stands just before that line feed. *)
Fixpoint first_line (head : string) : string :=
  match head with
  | EmptyString => EmptyString
  | String a rest =>
      if Ascii.eqb a "010" then EmptyString
      else if Ascii.eqb a "013" && at_line_feed rest then EmptyString
      else String a (first_line rest)
  end.

(** [sniffDelimiter((head.split(/\r?\n/)[0] || ','))], where [head] is the
    decoded start of the file. *)
Definition delimiter_of (head : string) : ascii :=
  sniffDelimiter (Str.or_else (first_line head) ",").

End Source.

(** ** parseXsdPaths *)

Module Xsd.

(** The object tree of the XML parser (attributes kept, no prefix on their
    names).  A tag that has neither attributes nor child tags is its parsed
    text, the empty string when there is none; any other tag is an object
    that holds its attributes, which are strings, and its child tags: one
    object for a tag that occurs once, an array for a tag that repeats.
    Attribute names carry no prefix and the tags the program reads are
    prefixed, so the two kinds of property are kept apart. *)
Inductive prim :=
| PStr (s : string)
| PNum (x : float)
| PBool (b : bool).

Inductive node :=
| Text (v : prim)
| Elem (attrs : list (string * string)) (tags : list (string * child))
with child :=
| One (n : node)
| Many (items : list node).

Definition prim_truthy (v : prim) : bool :=
  match v with
  | PStr s => Str.truthy s
  | PNum x => Num.truthy x
  | PBool b => b
  end.

Definition node_truthy (n : node) : bool :=
  match n with
  | Text v => prim_truthy v
  | Elem _ _ => true
  end.

Definition child_truthy (c : child) : bool :=
  match c with
  | One n => node_truthy n
  | Many _ => true
  end.

(** A property read gives [undefined] ([None]) or a value. *)
Definition truthy (c : option child) : bool :=
  match c with
  | Some c => child_truthy c
  | None => false
  end.

(** [el.name], [el.ref], [el.type], [el.minOccurs], [el.maxOccurs] *)
Definition attr (n : node) (k : string) : option string :=
  match n with
  | Elem attrs _ => Json.assoc k attrs
  | Text _ => None
  end.

(** [n['xs:...']] on a tag *)
Definition tag (n : node) (k : string) : option child :=
  match n with
  | Elem _ tags => Json.assoc k tags
  | Text _ => None
  end.

(** [v['xs:...']] on the value of a property: an array has no such key. *)
Definition prop (v : option child) (k : string) : option child :=
  match v with
  | Some (One n) => tag n k
  | _ => None
  end.

(** [x ? (Array.isArray(x) ? x : [x]) : []] *)
Definition as_array (x : option child) : list node :=
  match x with
  | Some (Many items) => items
  | Some (One n) => if node_truthy n then [n] else []
  | None => []
  end.

(** A row of the target dictionary. *)
Record row := {
  schema : string;
  path : string;
  name : string;
  type : string;
  minOccurs : string;
  maxOccurs : string
}.

(** [for (const ct of cts) if (ct.name) complexTypes[ct.name] = ct;]
    The table is a plain object; reading it at a name of [Object.prototype]
    gives a function, which has no grouping and leaves the emitted row as
    it is when the name is not in the table: the model reads own keys. *)
Definition index_types (cts : list node) : gmap string node :=
  foldl (fun complexTypes ct =>
           match attr ct "name" with
           | Some n => if Str.truthy n then <[n := ct]> complexTypes else complexTypes
           | None => complexTypes
           end) ∅ cts.

Definition childElements (nd : option child) : list node :=
  if negb (truthy nd) then []
  else
    flat_map (fun t =>
                flat_map (fun s => as_array (tag s "xs:element")) (as_array (prop nd t)))
             ["xs:sequence"; "xs:choice"; "xs:all"].

(** ToBoolean on the value of an attribute read. *)
Definition attr_truthy (a : option string) : bool :=
  match a with
  | Some s => Str.truthy s
  | None => false
  end.

(** [el.name || (el.ref ? String(el.ref).split(':').pop() : '(anon)')] *)
Definition elName_of (el : node) : string :=
  if attr_truthy (attr el "name") then default EmptyString (attr el "name")
  else if attr_truthy (attr el "ref")
       then Str.pop (Str.split ":" (default EmptyString (attr el "ref")))
       else "(anon)".

(** [prefix ? `${prefix}/${elName}` : elName] *)
Definition pathStr_of (prefix elName : string) : string :=
  if Str.truthy prefix then prefix +:+ "/" +:+ elName else elName.

(** [el.type ? String(el.type).split(':').pop() : null] *)
Definition tname_of (el : node) : option string :=
  if attr_truthy (attr el "type")
  then Some (Str.pop (Str.split ":" (default EmptyString (attr el "type"))))
  else None.

(** [let ct = null;
     if (tname && complexTypes[tname]) ct = complexTypes[tname];
     else if (el['xs:complexType']) ct = el['xs:complexType'];] *)
Definition ct_of (complexTypes : gmap string node) (el : node) : option child :=
  let inline := if truthy (tag el "xs:complexType") then tag el "xs:complexType" else None in
  match tname_of el with
  | Some tname =>
      if Str.truthy tname then
        match complexTypes !! tname with
        | Some ct => if node_truthy ct then Some (One ct) else inline
        | None => inline
        end
      else inline
  | None => inline
  end.

(** The row [walk] pushes for a leaf. *)
Definition leaf_row (fname : string) (el : node) (prefix : string) (ct : option child) : row :=
  {| schema := fname;
     path := pathStr_of prefix (elName_of el);
     name := elName_of el;
     type := match tname_of el with
             | Some tname => if Str.truthy tname then tname
                             else if bool_decide (is_Some ct) then "complexType" else "simpleType"
             | None => if bool_decide (is_Some ct) then "complexType" else "simpleType"
             end;
     minOccurs := default "1" (attr el "minOccurs");
     maxOccurs := default "1" (attr el "maxOccurs") |}.

(** [walk(el, prefix)] with the array [rows] it pushes to passed through.
    [fuel] bounds the depth of the recursion, which the source leaves to the
    call stack: at depth zero the engine throws a RangeError. *)
Fixpoint walk (fuel : nat) (complexTypes : gmap string node) (fname : string)
    (el : node) (prefix : string) (rows : list row) : result (list row) :=
  match fuel with
  | O => Throw RangeError
  | S fuel' =>
      let ct := ct_of complexTypes el in
      let kids := childElements ct in
      if negb (bool_decide (is_Some ct)) || (length kids =? 0)%nat then
        Ok (rows ++ [leaf_row fname el prefix ct])
      else
        foldl (fun acc kid =>
                 rows' <- acc ;;
                 walk fuel' complexTypes fname kid (pathStr_of prefix (elName_of el)) rows')
              (Ok rows) kids
  end.

(** [r.schema + '|' + r.path] *)
Definition key (r : row) : string := schema r +:+ "|" +:+ path r.

(** [const seen = new Set();
     rows.filter(r => { const key = ...; if (seen.has(key)) return false;
                        seen.add(key); return true; })] *)
Fixpoint filter_seen (seen : gset string) (rows : list row) : list row :=
  match rows with
  | [] => []
  | r :: rows' =>
      if bool_decide (key r ∈ seen) then filter_seen seen rows'
      else r :: filter_seen ({[key r]} ∪ seen) rows'
  end.

Definition is_object (c : child) : bool :=
  match c with
  | One (Elem _ _) | Many _ => true
  | One (Text _) => false
  end.

(** [j['xs:schema'] || j.schema
     || Object.values(j).find(v => v && typeof v === 'object' && v['xs:element'])] *)
Definition find_schema (j : node) : option child :=
  if truthy (tag j "xs:schema") then tag j "xs:schema"
  else if truthy (tag j "schema") then tag j "schema"
  else
    match j with
    | Elem _ tags =>
        List.find (fun v => child_truthy v && is_object v && truthy (prop (Some v) "xs:element"))
                  (map snd tags)
    | Text _ => None
    end.

(** The rows that [walk] has pushed when the loop over the root elements
    ends, in the order of discovery. *)
Definition discover (fuel : nat) (fname : string) (j : node) : result (list row) :=
  let schema := find_schema j in
  if negb (truthy schema) then Ok []
  else
    let cts := as_array (prop schema "xs:complexType") in
    let complexTypes := index_types cts in
    let elements := as_array (prop schema "xs:element") in
    foldl (fun acc gel => rows <- acc ;; walk fuel complexTypes fname gel "" rows)
          (Ok []) elements.

(** [parseXsdPaths(name, xmlString)], from the document the parser returns. *)
Definition parseXsdPaths (fuel : nat) (fname : string) (j : node) : result (list row) :=
  rows <- discover fuel fname j ;;
  Ok (filter_seen ∅ rows).

End Xsd.

(** ** aoaiMapBatch: the answer of the scoring oracle *)

Module Oracle.
Import Json.

(** The process environment the function reads. *)
Record config := {
  AZURE_ENDPOINT : string;
  AZURE_API_KEY : string;
  AZURE_DEPLOYMENT : string
}.

(** An entry of [target_dictionary] in the payload. *)
Record target := {
  path : string;
  type : string;
  occurs : string;
  schema : string
}.

(** The payload that is sent as the content of the user message. *)
Record payload := {
  instruction : string;
  source_fields : list string;
  sample_values : gmap string (list string);
  target_dictionary : list target
}.

Definition payload_of (sourceCols : list string) (targetRows : list Xsd.row)
    (sampleMap : gmap string (list string)) : payload :=
  {| instruction := "Map each source field to the most appropriate target path. Return an array of {source, target_path, score, rationale}.";
     source_fields := sourceCols;
     sample_values := sampleMap;
     target_dictionary :=
       map (fun r => {| path := Xsd.path r;
                        type := Str.or_else (Xsd.type r) EmptyString;
                        occurs := Str.or_else (Xsd.minOccurs r) EmptyString +:+ ".." +:+
                                  Str.or_else (Xsd.maxOccurs r) EmptyString;
                        schema := Str.or_else (Xsd.schema r) EmptyString |})
           (take 3000 targetRows) |}.

(** What the HTTP call gives the function: it fails (network, timeout,
    status, a body without [choices[0].message.content]), or it yields the
    [content] of the first choice. *)
Inductive reply :=
| Failed (e : error)
| Content (text : value).

(** An element of the array [aoaiMapBatch] returns. *)
Record mapped := {
  SourceField : value;
  SuggestedTargetPath : value;
  MatchScore : float;
  Rationale : value
}.

Section Decode.
Variable E : builtins.

(** [m => ({ SourceField: m.source || '', SuggestedTargetPath: m.target_path || '',
             MatchScore: Number(m.score) || 0, Rationale: m.rationale || '' })] *)
Definition mapping (m : value) : result mapped :=
  source <- get m "source" ;;
  target_path <- get m "target_path" ;;
  score <- get m "score" ;;
  rationale <- get m "rationale" ;;
  Ok {| SourceField := or_else source (VStr "");
        SuggestedTargetPath := or_else target_path (VStr "");
        MatchScore := Num.or_zero (ToNumber E score);
        Rationale := or_else rationale (VStr "") |}.

(** [Array.isArray(obj) ? obj : (obj.mappings || [])] *)
Definition mappings_of (obj : value) : result value :=
  if isArray obj then Ok obj
  else m <- get obj "mappings" ;; Ok (or_else m (VArr [])).

(** [mappings.map(...)]: only an array has the method. *)
Definition map_mappings (mappings : value) : result (list mapped) :=
  match mappings with
  | VArr items => mapM mapping items
  | _ => Throw TypeError
  end.

(** [typeof text === 'string' ? JSON.parse(text) : text], inside the [try]. *)
Definition parse_content (text : value) : result value :=
  match text with
  | VStr s =>
      match JSON_parse E s with
      | Some obj => Ok obj
      | None => Throw (Error "AOAI returned non-JSON")
      end
  | _ => Ok text
  end.

(** Lines 144 and 145: from the parsed answer to the array returned. *)
Definition of_parsed (obj : value) : result (list mapped) :=
  mappings <- mappings_of obj ;;
  map_mappings mappings.

(** Lines 136 to 145: from the content of the completion to the array
    returned. *)
Definition decode (text : value) : result (list mapped) :=
  obj <- parse_content text ;;
  of_parsed obj.

(** The elements of the array of mappings that a reply holds. *)
Definition elements (r : reply) : list value :=
  match r with
  | Content text =>
      match obj <- parse_content text ;; mappings_of obj with
      | Ok (VArr items) => items
      | _ => []
      end
  | Failed _ => []
  end.

(** [aoaiMapBatch(sourceCols, targetRows, sampleMap)]; [post] is the chat
    completion service, from the payload to its reply. *)
Definition aoaiMapBatch (cfg : config) (post : payload -> reply)
    (sourceCols : list string) (targetRows : list Xsd.row)
    (sampleMap : gmap string (list string)) : result (list mapped) :=
  if negb (Str.truthy (AZURE_ENDPOINT cfg)) || negb (Str.truthy (AZURE_API_KEY cfg))
     || negb (Str.truthy (AZURE_DEPLOYMENT cfg))
  then Throw (Error "Azure OpenAI env vars missing")
  else
    match post (payload_of sourceCols targetRows sampleMap) with
    | Failed e => Throw e
    | Content text => decode text
    end.

End Decode.
End Oracle.

(** ** colorForScore *)

Module Color.
Local Open Scope float_scope.

(** [const clamp = x => Math.max(0, Math.min(1, x || 0))] *)
Definition clamp (x : float) : float := Num.Math_max 0 (Num.Math_min 1 (Num.or_zero x)).

Definition hexToRgb (h : string) : list float :=
  let s := Str.remove_first "#" h in
  [ Str.parseInt16 (Str.slice 0 2 s); Str.parseInt16 (Str.slice 2 4 s);
    Str.parseInt16 (Str.slice 4 6 s) ].

(** [n.toString(16)] on the numbers [blend] returns.  The digits after the
    point of a number that is no integer are not modelled: [Math.round]
    returns none. *)
Definition toString16 (n : float) : string :=
  if is_nan n then "NaN"
  else if is_infinity n then (if get_sign n then "-Infinity" else "Infinity")
  else
    match Num.to_int n with
    | Some z => Str.hex z
    | None => "?"
    end.

Definition rgbToHex (rgb : list float) : string :=
  "#" +:+ Str.join (map (fun n => Str.padStart2 (toString16 n)) rgb).

(** [a[i]] for the three-element arrays of this function. *)
Definition at_ (a : list float) (i : nat) : float := nth i a nan.

Definition blend (a b : list float) (t : float) : list float :=
  [ Num.Math_round (at_ a 0 + (at_ b 0 - at_ a 0) * t);
    Num.Math_round (at_ a 1 + (at_ b 1 - at_ a 1) * t);
    Num.Math_round (at_ a 2 + (at_ b 2 - at_ a 2) * t) ].

Definition RED : list float := hexToRgb "#F8696B".
Definition YEL : list float := hexToRgb "#FFEB84".
Definition GRN : list float := hexToRgb "#63BE7B".

Definition colorForScore (v : float) : string :=
  let v := clamp v in
  let rgb := if v <=? 0.5 then blend RED YEL (v / 0.5) else blend YEL GRN ((v - 0.5) / 0.5) in
  rgbToHex rgb.

End Color.

(** ** The MatchScore cell of the two renderers *)

Module Render.
Import Json.
Local Open Scope float_scope.

(** A rendered score cell: its text and its background. *)
Record cell := { text : string; bg : string }.

Section Cells.
Variable E : builtins.

(** [`${(v*100).toFixed(1)}%`] *)
Definition pct (v : float) : string := toFixed1 E (v * 100) +:+ "%".

(** [addSheet] of [buildExcelBuffer]:
    [typeof raw === 'number' ? raw
       : (String(raw).endsWith('%') ? parseFloat(String(raw))/100
                                    : parseFloat(String(raw)) || 0)] *)
Definition excel_value (raw : value) : float :=
  match raw with
  | VNum x => x
  | _ =>
      let s := ToString E raw in
      if Str.endsWith s "%" then parseFloat E s / 100
      else Num.or_zero (parseFloat E s)
  end.

(** [let bg = '#FFFFFF'; if (isFinite(v)) bg = v < 0.60 ? '#FCE4E4' : colorForScore(v);] *)
Definition excel_bg (v : float) : string :=
  if Num.isFinite v then (if v <? 0.60 then "#FCE4E4" else Color.colorForScore v)
  else "#FFFFFF".

Definition excel_cell (raw : value) : cell :=
  let v := excel_value raw in
  {| text := if Num.isFinite v then pct v else EmptyString;
     bg := excel_bg v |}.

(** [fgColor: { rgb: bg.replace('#','').toUpperCase() }] *)
Definition excel_fgColor (c : cell) : string :=
  Str.toUpperCase (Str.remove_first "#" (bg c)).

(** [msNum] of [dfToHtmlDoc] *)
Definition msNum (x : value) : float :=
  match x with
  | VNum n => n
  | _ =>
      let s := ToString E x in
      if Str.endsWith s "%" then parseFloat E s / 100 else parseFloat E s
  end.

(** [const low = isFinite(v) && v < 0.60;] *)
Definition html_low (v : float) : bool := Num.isFinite v && (v <? 0.60).

(** [const bg = low ? '#FCE4E4' : (isFinite(v) ? colorForScore(v) : 'transparent');] *)
Definition html_bg (v : float) : string :=
  if html_low v then "#FCE4E4"
  else if Num.isFinite v then Color.colorForScore v else "transparent".

Definition html_cell (raw : value) : cell :=
  let v := msNum raw in
  {| text := if Num.isFinite v then pct v else EmptyString;
     bg := html_bg v |}.

End Cells.
End Render.

(** ** Array.prototype.sort *)

Module Arr.
Local Open Scope float_scope.

(** [xs.sort(comparefn)].  ECMAScript leaves the algorithm open but
    requires the sort to be stable, and a comparator result that is [NaN]
    counts as [+0]; with a consistent comparator the result is then
    determined.  The model is the stable insertion sort: an element moves
    behind the elements that the comparator puts strictly before it. *)
Fixpoint insert {A} (comparefn : A -> A -> float) (x : A) (xs : list A) : list A :=
  match xs with
  | [] => [x]
  | y :: xs' => if 0 <? comparefn x y then y :: insert comparefn x xs' else x :: xs
  end.

Definition sort {A} (comparefn : A -> A -> float) (xs : list A) : list A :=
  foldr (insert comparefn) [] xs.

End Arr.

(** ** The /api/map route *)

Module Handler.
Import Json.
Local Open Scope float_scope.

(** A row of [bySource] and [byScore]. *)
Record assembled := {
  SourceOrder : nat;
  SourceField : value;
  SuggestedTargetPath : value;
  TargetSchema : string;
  TargetType : string;
  Occurs : string;
  MatchScore : float;
  SampleValue : string;
  Rationale : value
}.

(** What the route answers. *)
Inductive response :=
| Status400 (message : string)
| Status500 (e : error)
| Report (bySource byScore : list assembled) (targetDict : list Xsd.row).

(** [Object.keys(sourceRows[0])], for rows that are objects. *)
Definition keys (r : value) : list string :=
  match r with
  | VObj props => map fst props
  | _ => []
  end.

Definition sourceFields_of (sourceRows : list value) : list string :=
  match sourceRows with
  | r :: _ => keys r
  | [] => []
  end.

(** [new Set(results.map(r => r.SourceField))] and [have.has(c)] for a
    string [c]: the set holds values, and a string is only the same value
    as an equal string. *)
Definition Set_has (members : list value) (c : string) : bool :=
  existsb (fun v => match v with
                    | VStr s => String.eqb s c
                    | _ => false
                    end) members.

(** [new Map(targetDict.map(r => [r.path, r]))]: a later entry replaces an
    earlier one with the same path. *)
Definition extraByPath_of (targetDict : list Xsd.row) : gmap string Xsd.row :=
  foldl (fun m r => <[Xsd.path r := r]> m) ∅ targetDict.

(** [extraByPath.get(k)] for a value [k]: the keys are strings. *)
Definition Map_get (m : gmap string Xsd.row) (k : value) : option Xsd.row :=
  match k with
  | VStr p => m !! p
  | _ => None
  end.

(** [extra.f || ''] where [extra] is the entry found, or [{}]. *)
Definition field_or_empty (extra : option Xsd.row) (f : Xsd.row -> string) : string :=
  match extra with
  | Some r => Str.or_else (f r) EmptyString
  | None => EmptyString
  end.

(** [[...new Set(xs)]] with the strings that the set holds before: the
    strings of [xs] that are new, each at the place where it first occurs. *)
Fixpoint Set_spread (seen : gset string) (xs : list string) : list string :=
  match xs with
  | [] => []
  | x :: xs' =>
      if bool_decide (x ∈ seen) then Set_spread seen xs'
      else x :: Set_spread ({[x]} ∪ seen) xs'
  end.

Section Route.
Variable E : builtins.
Variable cfg : Oracle.config.

(** The chat completion service at the request sent for the batch that
    starts at index [i] of the field list: from the payload to the reply. *)
Variable oracle : nat -> Oracle.payload -> Oracle.reply.

(** [(r[col] ?? '').toString()] for a row of the readers, which is an
    object. *)
Definition column_text (col : string) (r : value) : string :=
  match r with
  | VObj props =>
      match Json.assoc col props with
      | Some VUndefined | Some VNull | None => EmptyString
      | Some v => ToString E v
      end
  | _ => EmptyString
  end.

(** [[...new Set(sourceRows.map(r => (r[col] ?? '').toString()))].filter(Boolean).slice(0,3)] *)
Definition sample_of (sourceRows : list value) (col : string) : list string :=
  take 3 (List.filter Str.truthy (Set_spread ∅ (map (column_text col) sourceRows))).

(** [const samples = {}; for (const col of sourceFields) samples[col] = ...] *)
Definition samples_of (sourceRows : list value) (sourceFields : list string)
  : gmap string (list string) :=
  foldl (fun samples col => <[col := sample_of sourceRows col]> samples) ∅ sourceFields.

(** [sourceFields.slice(i, i+60)] *)
Definition batch_at (sourceFields : list string) (i : nat) : list string :=
  take 60 (drop i sourceFields).

(** [const subset = {}; batch.forEach(k => subset[k] = samples[k]);]
    A key without samples is set to [undefined], which the payload drops. *)
Definition subset_of (samples : gmap string (list string)) (batch : list string)
  : gmap string (list string) :=
  foldl (fun subset k =>
           match samples !! k with
           | Some v => <[k := v]> subset
           | None => subset
           end) ∅ batch.

(** [for (let i=0; i<sourceFields.length; i+=60) {
       const batch = sourceFields.slice(i, i+60);
       const subset = {}; batch.forEach(k => subset[k] = samples[k]);
       const mapped = await aoaiMapBatch(batch, targetDict, subset);
       results = results.concat(mapped); }]
    The loop runs at most once per field: [n] counts the turns left. *)
Fixpoint batches (n : nat) (i : nat) (sourceFields : list string)
    (targetDict : list Xsd.row) (samples : gmap string (list string))
    (results : list Oracle.mapped) : result (list Oracle.mapped) :=
  match n with
  | O => Ok results
  | S n' =>
      if (i <? length sourceFields)%nat then
        let batch := batch_at sourceFields i in
        let subset := subset_of samples batch in
        mapped <- Oracle.aoaiMapBatch E cfg (oracle i) batch targetDict subset ;;
        batches n' (i + 60) sourceFields targetDict samples (results ++ mapped)
      else Ok results
  end.

(** [for (const c of sourceFields) if (!have.has(c)) results.push({...})] *)
Definition backfill (sourceFields : list string) (results : list Oracle.mapped)
  : list Oracle.mapped :=
  let have := map Oracle.SourceField results in
  results ++
  map (fun c => {| Oracle.SourceField := VStr c;
                   Oracle.SuggestedTargetPath := VStr EmptyString;
                   Oracle.MatchScore := 0;
                   Oracle.Rationale := VStr EmptyString |})
      (List.filter (fun c => negb (Set_has have c)) sourceFields).

(** The function mapped over [results] to build [bySource]. *)
Definition join (extraByPath : gmap string Xsd.row) (samples : gmap string (list string))
    (idx : nat) (r : Oracle.mapped) : assembled :=
  let extra := Map_get extraByPath (Oracle.SuggestedTargetPath r) in
  {| SourceOrder := idx + 1;
     SourceField := Oracle.SourceField r;
     SuggestedTargetPath := Oracle.SuggestedTargetPath r;
     TargetSchema := field_or_empty extra Xsd.schema;
     TargetType := field_or_empty extra Xsd.type;
     Occurs := field_or_empty extra Xsd.minOccurs +:+ ".." +:+ field_or_empty extra Xsd.maxOccurs;
     MatchScore := Oracle.MatchScore r;
     SampleValue :=
       match samples !! ToString E (Oracle.SourceField r) with
       | Some (s :: _) => s
       | _ => EmptyString
       end;
     Rationale := or_else (Oracle.Rationale r) (VStr EmptyString) |}.

(** [(a,b) => (b.MatchScore||0) - (a.MatchScore||0)] *)
Definition by_score (a b : assembled) : float :=
  Num.or_zero (MatchScore b) - Num.or_zero (MatchScore a).

(** The assembly, lines 249 to 274: from the field list, the target
    dictionary and the samples to [bySource] and [byScore]. *)
Definition assemble (sourceFields : list string) (targetDict : list Xsd.row)
    (samples : gmap string (list string)) : result (list assembled * list assembled) :=
  results <- batches (length sourceFields) 0 sourceFields targetDict samples [] ;;
  let results := backfill sourceFields results in
  let extraByPath := extraByPath_of targetDict in
  let bySource := imap (join extraByPath samples) results in
  let byScore := Arr.sort by_score bySource in
  Ok (bySource, byScore).

(** [for (const f of xsdFiles) targetDict = targetDict.concat(parseXsdPaths(...));] *)
Definition collect (fuel : nat) (xsdFiles : list (string * Xsd.node))
  : result (list Xsd.row) :=
  foldl (fun acc f =>
           targetDict <- acc ;;
           rows <- Xsd.parseXsdPaths fuel (fst f) (snd f) ;;
           Ok (targetDict ++ rows))
        (Ok []) xsdFiles.

(** [const seen = new Set(); targetDict = targetDict.filter(...)] *)
Definition targetDict_of (fuel : nat) (xsdFiles : list (string * Xsd.node))
  : result (list Xsd.row) :=
  all <- collect fuel xsdFiles ;;
  Ok (Xsd.filter_seen ∅ all).

(** The route up to the report it renders.  [xsdFiles] are the uploaded
    schemas, each with its [originalname] and the document the XML parser
    makes of it; [source] is the uploaded source file, read into rows by
    [readSourceBufferToRows], which may fail. *)
Definition route (fuel : nat) (output_format : string) (xsdFiles : list (string * Xsd.node))
    (source : option (result (list value))) : response :=
  if negb (bool_decide (output_format ∈ ["xlsx"; "html"; "both"]))
  then Status400 "output_format must be xlsx|html|both"
  else if (length xsdFiles =? 0)%nat then Status400 "At least one xsd_files required"
  else
    match source with
    | None => Status400 "source_file required"
    | Some read =>
        let run :=
          sourceRows <- read ;;
          let sourceFields := sourceFields_of sourceRows in
          targetDict <- targetDict_of fuel xsdFiles ;;
          let samples := samples_of sourceRows sourceFields in
          tables <- assemble sourceFields targetDict samples ;;
          Ok (tables, targetDict) in
        match run with
        | Ok (bySource, byScore, targetDict) => Report bySource byScore targetDict
        | Throw e => Status500 e
        end
    end.

End Route.
End Handler.

(** ** The text of dfToHtmlDoc *)

Module Html.
Import Json.

(** [c => ({'&':'&amp;','<':'&lt;','>':'&gt;'}[c])] on the three characters
    that the expression [/[&<>]/g] matches; any other character stays. *)
Definition entity (c : ascii) : string :=
  if Ascii.eqb c "&" then "&amp;"
  else if Ascii.eqb c "<" then "&lt;"
  else if Ascii.eqb c ">" then "&gt;"
  else String c EmptyString.

(** [s.replace(/[&<>]/g, c => ...)] *)
Fixpoint replace_entities (s : string) : string :=
  match s with
  | EmptyString => EmptyString
  | String c s' => entity c +:+ replace_entities s'
  end.

Section Esc.
Variable E : builtins.

(** [const esc = (s) => String(s ?? '').replace(/[&<>]/g, ...)] *)
Definition esc (s : value) : string :=
  replace_entities (match s with
                    | VUndefined | VNull => EmptyString
                    | _ => ToString E s
                    end).

End Esc.
End Html.

(* ================================================================== *)
(** * Part II: what the statements and the proofs speak of *)
(* ================================================================== *)

(** ** Tactics for the comparison of binary64 floats *)

Ltac cmp_cases :=
  repeat match goal with
  | |- context [Z.compare ?a ?b] => destruct (Z.compare_spec a b)
  | H : context [Z.compare ?a ?b] |- _ => destruct (Z.compare_spec a b)
  | |- context [Pos.compare_cont Eq ?a ?b] =>
      change (Pos.compare_cont Eq a b) with (Pos.compare a b);
      destruct (Pos.compare_spec a b)
  | H : context [Pos.compare_cont Eq ?a ?b] |- _ =>
      change (Pos.compare_cont Eq a b) with (Pos.compare a b) in H;
      destruct (Pos.compare_spec a b)
  end.

Ltac sf_crush :=
  intros;
  repeat match goal with x : spec_float |- _ => destruct x as [[]|[]| |[] ? ?] end;
  cbn in *; try discriminate; try reflexivity; try congruence;
  cmp_cases; cbn in *; subst; try discriminate; try reflexivity; try congruence; try lia.

Module SFSpec.

(** A float that is not zero and not [NaN], of sign [s]. *)
Definition signed_nonzero (s : bool) (f : spec_float) : Prop :=
  match f with
  | S754_finite s' _ _ | S754_infinity s' => s' = s
  | _ => False
  end.

End SFSpec.

(** ** The order of a sorted array *)

Module ArrSpec.

(** [a] may stand before [b]: its key is not smaller. *)
Definition before {A} (key : A -> float) (a b : A) : Prop := (key b <=? key a)%float = true.

End ArrSpec.

(** ** The assembly *)

Module HandlerSpec.
Import Json.
Local Open Scope float_scope.

(** The indices at which the loop over the batches sends a request. *)
Fixpoint starts (n i len : nat) : list nat :=
  match n with
  | O => []
  | S n' => if (i <? len)%nat then i :: starts n' (i + 60) len else []
  end.

(** The reply to the request that the loop sends at index [i]. *)
Definition reply_at (oracle : nat -> Oracle.payload -> Oracle.reply)
    (sourceFields : list string) (targetDict : list Xsd.row)
    (samples : gmap string (list string)) (i : nat) : Oracle.reply :=
  oracle i (Oracle.payload_of (Handler.batch_at sourceFields i) targetDict
              (Handler.subset_of samples (Handler.batch_at sourceFields i))).

(** A score that [x || 0] leaves as it is: neither [NaN] nor [-0]. *)
Definition settled (x : float) : Prop := Num.or_zero x = x.

(** The row pushed for a field the oracle left out. *)
Definition placeholder (c : string) : Oracle.mapped :=
  {| Oracle.SourceField := VStr c;
     Oracle.SuggestedTargetPath := VStr EmptyString;
     Oracle.MatchScore := 0;
     Oracle.Rationale := VStr EmptyString |}.

(** What [aoaiMapBatch] gives for the request that the loop sends at index
    [k] of the field list. *)
Definition answer_to (E : builtins) (cfg : Oracle.config)
    (oracle : nat -> Oracle.payload -> Oracle.reply) (sourceFields : list string)
    (targetDict : list Xsd.row) (samples : gmap string (list string)) (k : nat)
  : result (list Oracle.mapped) :=
  Oracle.aoaiMapBatch E cfg (oracle k) (Handler.batch_at sourceFields k) targetDict
    (Handler.subset_of samples (Handler.batch_at sourceFields k)).

End HandlerSpec.

(** ** The dictionary and the recursion of walk *)

Module XsdSpec.
Import Xsd.

(** The identity of an entry in the words of the specification. *)
Definition pair (r : row) : string * string := (schema r, path r).

(** Deduplication by [(schema, path)] in the words of the specification:
    the first occurrence of a pair stays, later ones are dropped. *)
Fixpoint first_wins (seen : gset (string * string)) (rows : list row) : list row :=
  match rows with
  | [] => []
  | r :: rows' =>
      if bool_decide (pair r ∈ seen) then first_wins seen rows'
      else r :: first_wins ({[pair r]} ∪ seen) rows'
  end.

(** [c] occurs in [s]. *)
Fixpoint has_char (c : ascii) (s : string) : bool :=
  match s with
  | EmptyString => false
  | String a s' => Ascii.eqb a c || has_char c s'
  end.

(** The key string tells the pairs of these rows apart. *)
Definition unambiguous (rows : list row) : Prop :=
  forall r r', r ∈ rows -> r' ∈ rows -> key r = key r' -> pair r = pair r'.

(** The table of named complex types of a document. *)
Definition types_of (j : node) : gmap string node :=
  index_types (as_array (prop (find_schema j) "xs:complexType")).

(** [el] has the type [b] of the table: [walk] takes its children from
    the complex type named [b]. *)
Definition named (complexTypes : gmap string node) (el : node) (b : string) : Prop :=
  tname_of el = Some b /\ Str.truthy b = true /\
  exists ct, complexTypes !! b = Some ct /\ node_truthy ct = true.

(** [kid] is a child that [walk] finds for [el] in its inline complex type. *)
Definition inline_kid (complexTypes : gmap string node) (el kid : node) : Prop :=
  (forall b, ~ named complexTypes el b) /\ kid ∈ childElements (ct_of complexTypes el).

(** The elements that [walk] visits inside the named type [a] without
    leaving it: its children, and their descendants through inline types. *)
Inductive within (complexTypes : gmap string node) (a : string) : node -> Prop :=
| within_top ct el :
    complexTypes !! a = Some ct -> el ∈ childElements (Some (One ct)) ->
    within complexTypes a el
| within_inline el kid :
    within complexTypes a el -> inline_kid complexTypes el kid ->
    within complexTypes a kid.

(** The named type [a] refers to the named type [b]: an element inside [a]
    has the type [b]. *)
Definition refers (complexTypes : gmap string node) (a b : string) : Prop :=
  exists el, within complexTypes a el /\ named complexTypes el b.

(** No named type refers to itself, directly or through other types. *)
Definition acyclic (complexTypes : gmap string node) : Prop :=
  forall a, ~ tc (refers complexTypes) a a.

(** The size of a node: the number of tags in it. *)
Fixpoint node_size (n : node) : nat :=
  match n with
  | Text _ => 1
  | Elem _ tags => S (foldr (fun kc acc => child_size (snd kc) + acc) 0 tags)
  end
with child_size (c : child) : nat :=
  match c with
  | One n => node_size n
  | Many items => foldr (fun n acc => node_size n + acc) 0 items
  end.

(** The complex type of an element that has no type of the table. *)
Definition inline_ct (el : node) : option child :=
  if truthy (tag el "xs:complexType") then tag el "xs:complexType" else None.

(** The loop [for (const kid of kids) walk(kid, pathStr)]. *)
Definition loop (g : node -> list row -> result (list row)) (acc : result (list row))
    (kids : list node) : result (list row) :=
  foldl (fun acc kid => rows' <- acc ;; g kid rows') acc kids.

(** [walk] returns on [el], whatever the prefix and the rows so far, when
    the stack is deep enough. *)
Definition returns (complexTypes : gmap string node) (fname : string) (el : node) : Prop :=
  exists fuel, forall prefix rows, exists r,
    walk fuel complexTypes fname el prefix rows = Ok r.

(** The node [el] with the name ['(anon)'] written on it. *)
Definition named_anon (el : node) : node :=
  match el with
  | Elem attrs tags => Elem (("name", "(anon)") :: attrs) tags
  | Text _ => Elem [("name", "(anon)")] []
  end.

(** [walk] returns on [el] with a stack of depth [fuel], for some prefix
    and some rows pushed before. *)
Definition returns_at (complexTypes : gmap string node) (fname : string) (fuel : nat)
    (el : node) : Prop :=
  exists prefix rows r, walk fuel complexTypes fname el prefix rows = Ok r.

(** The global elements of a document. *)
Definition elements_of (j : node) : list node :=
  as_array (prop (find_schema j) "xs:element").

(** A row that [walk] pushes for some element. *)
Definition pushed (complexTypes : gmap string node) (fname : string) (r : row) : Prop :=
  exists el prefix, r = leaf_row fname el prefix (ct_of complexTypes el).

End XsdSpec.

(** ** The text of the document *)

Module HtmlSpec.

(** Every [&] of the text starts one of the three entities. *)
Fixpoint entities_only (s : string) : bool :=
  match s with
  | EmptyString => true
  | String c s' =>
      (if Ascii.eqb c "&"
       then String.prefix "amp;" s' || String.prefix "lt;" s' || String.prefix "gt;" s'
       else true) && entities_only s'
  end.

End HtmlSpec.

(** ** Example data *)

Module Examples.
Import Json.
Local Open Scope float_scope.

(** An engine for the examples, which hold no text to convert: the answers
    of the oracle are given as parsed values. *)
Definition engine : builtins :=
  {| StringToNumber := fun _ => nan;
     NumberToString := fun _ => EmptyString;
     parseFloat := fun _ => nan;
     toFixed1 := fun _ => EmptyString;
     JSON_parse := fun _ => None |}.

Definition cfg : Oracle.config :=
  {| Oracle.AZURE_ENDPOINT := "https://example.openai.azure.com/";
     Oracle.AZURE_API_KEY := "key";
     Oracle.AZURE_DEPLOYMENT := "gpt-4o" |}.

(** [{source, target_path, score, rationale}] *)
Definition answer (source target_path : string) (score : float) : value :=
  VObj [("source", VStr source); ("target_path", VStr target_path);
        ("score", VNum score); ("rationale", VStr "same name")].

(** The oracle maps [Id] and says nothing of [Amount]. *)
Definition only_Id (i : nat) (request : Oracle.payload) : Oracle.reply :=
  Oracle.Content (VArr [answer "Id" "Invoice/Id" 0.9]).

(** The oracle answers the second field only, twice. *)
Definition twice_B (i : nat) (request : Oracle.payload) : Oracle.reply :=
  Oracle.Content (VArr [answer "B" "Invoice/Id" 0.9; answer "B" "Invoice/Total" 0.4]).

(** The oracle scores the second of three fields above the other two. *)
Definition B_first (i : nat) (request : Oracle.payload) : Oracle.reply :=
  Oracle.Content (VArr [answer "A" "Invoice/Id" 0.4; answer "B" "Invoice/Total" 0.9;
                        answer "C" "Invoice/Id" 0.4]).

(** The oracle gives a score of 5. *)
Definition score_5 (i : nat) (request : Oracle.payload) : Oracle.reply :=
  Oracle.Content (VArr [answer "A" "Invoice/Id" 5]).

Definition invoice_rows : list Xsd.row :=
  [ {| Xsd.schema := "invoice.xsd"; Xsd.path := "Invoice/Id"; Xsd.name := "Id";
       Xsd.type := "string"; Xsd.minOccurs := "1"; Xsd.maxOccurs := "1" |};
    {| Xsd.schema := "invoice.xsd"; Xsd.path := "Invoice/Total"; Xsd.name := "Total";
       Xsd.type := "decimal"; Xsd.minOccurs := "0"; Xsd.maxOccurs := "1" |} ].

(** The service answers the first request and times out at the second. *)
Definition second_fails (i : nat) (request : Oracle.payload) : Oracle.reply :=
  if (i =? 0)%nat then Oracle.Content (VArr [])
  else Oracle.Failed (Error "timeout of 120000ms exceeded").

(** The oracle maps the two fields of the invoice, in their order. *)
Definition both_fields (i : nat) (request : Oracle.payload) : Oracle.reply :=
  Oracle.Content (VArr [answer "Id" "Invoice/Id" 0.9; answer "Total" "Invoice/Total" 0.8]).

End Examples.

(** ** Example schemas *)

Module Schemas.
Import Xsd.

Definition element (attrs : list (string * string)) : node := Elem attrs [].

(** A sequence of elements, as the content of a complex type. *)
Definition sequence_of (els : list node) : list (string * child) :=
  [("xs:sequence", One (Elem [] [("xs:element", Many els)]))].

(** The schema of the specification: [Invoice] with the leaves [Id] and
    [Total]. *)
Definition invoice : node :=
  Elem [] [("xs:schema", One (Elem [("xmlns:xs", "http://www.w3.org/2001/XMLSchema")]
    [("xs:element", One (Elem [("name", "Invoice")]
       [("xs:complexType", One (Elem []
          (sequence_of [element [("name", "Id"); ("type", "xs:string")];
                        element [("name", "Total"); ("type", "xs:decimal");
                                 ("minOccurs", "0")]])))]))]))].

Definition street : node := element [("name", "street"); ("type", "xs:string")].
Definition city : node := element [("name", "city"); ("type", "xs:string")].
Definition Address : node := Elem [("name", "Address")] (sequence_of [street; city]).

(** A root element with an inline type, one of whose children has the
    named type [Address]. *)
Definition customer : node :=
  Elem [] [("xs:schema", One (Elem []
    [("xs:complexType", One Address);
     ("xs:element", One (Elem [("name", "Customer")]
        [("xs:complexType", One (Elem []
           (sequence_of [element [("name", "home"); ("type", "tns:Address")];
                         element [("name", "id"); ("type", "xs:int")]])))]))]))].

(** A named type with a child of its own type. *)
Definition looping : node :=
  Elem [] [("xs:schema", One (Elem []
    [("xs:complexType", One (Elem [("name", "T")]
        (sequence_of [element [("name", "self"); ("type", "T")];
                      element [("name", "leaf")]])));
     ("xs:element", One (element [("name", "root"); ("type", "T")]))]))].

End Schemas.


(* ================================================================== *)
(** * Part III: the proofs *)
(* ================================================================== *)

(** ** Binary64 arithmetic

    The primitive floats are specified by the functions of [SpecFloat] on
    [spec_float].  Two facts are needed about them: the comparison is a
    total preorder away from [NaN], and the sign of a difference is the
    comparison of its operands (a difference of two distinct binary64
    numbers never rounds to zero). *)

Module SF.
Import SFSpec.
Local Open Scope Z_scope.

Lemma SFltb_false_leb x y :
  x <> S754_nan -> y <> S754_nan -> SFltb x y = false -> SFleb y x = true.
Proof. unfold SFltb, SFleb. sf_crush. Qed.

Lemma SFleb_trans x y z : SFleb x y = true -> SFleb y z = true -> SFleb x z = true.
Proof. unfold SFleb. sf_crush. Qed.

Lemma SFltb_leb x y : SFltb x y = true -> SFleb x y = true.
Proof. unfold SFltb, SFleb. sf_crush. Qed.

Lemma SFeqb_ltb_neq x y s : SFeqb x s = true -> SFltb x y = true -> SFeqb y s = false.
Proof. unfold SFltb, SFeqb. sf_crush. Qed.

Lemma SFeqb_refl_iff x : SFeqb x x = true <-> x <> S754_nan.
Proof.
  unfold SFeqb. split.
  - intros H ->. discriminate H.
  - intros H. destruct x as [[]|[]| |[] m e]; cbn; try reflexivity; try congruence;
      rewrite Z.compare_refl; change (Pos.compare_cont Eq m m) with (Pos.compare m m);
      rewrite Pos.compare_refl; reflexivity.
Qed.

Lemma SFltb_zero_neq y : SFltb (S754_zero false) y = true -> SFeqb y (S754_zero false) = false.
Proof. unfold SFltb, SFeqb. sf_crush. Qed.

Lemma digits2_size p : digits2_pos p = Pos.size p.
Proof. induction p; cbn; congruence. Qed.

Lemma digits2_bounds p :
  2 ^ (Z.pos (digits2_pos p) - 1) <= Z.pos p < 2 ^ Z.pos (digits2_pos p).
Proof.
  rewrite digits2_size. split.
  - assert (H : Z.pos (2 ^ Pos.size p) <= Z.pos p~0) by exact (Pos.size_le p).
    rewrite Pos2Z.inj_pow in H.
    replace (Z.pos (Pos.size p)) with (Z.succ (Z.pos (Pos.size p) - 1)) in H by lia.
    rewrite Z.pow_succ_r in H by lia. lia.
  - assert (H : Z.pos p < Z.pos (2 ^ Pos.size p)) by exact (Pos.size_gt p).
    now rewrite Pos2Z.inj_pow in H.
Qed.

Lemma iter_xO_pow m d : Z.pos (Pos.iter xO m d) = Z.pos m * 2 ^ Z.pos d.
Proof.
  revert m. induction d using Pos.peano_ind; intros m.
  - cbn. lia.
  - rewrite Pos.iter_succ, Pos2Z.inj_xO, IHd, Pos2Z.inj_succ, Z.pow_succ_r by lia. lia.
Qed.

Lemma shl_align_fst m e e' :
  e' <= e -> Z.pos (fst (shl_align m e e')) = Z.pos m * 2 ^ (e - e').
Proof.
  intros He. unfold shl_align.
  destruct (e' - e) as [|d|d] eqn:E; cbn [fst]; try lia.
  - replace (e - e') with 0 by lia. lia.
  - rewrite iter_xO_pow. f_equal. f_equal. lia.
Qed.

Lemma shr_1_m mrs : 0 <= shr_m mrs -> shr_m (shr_1 mrs) = shr_m mrs / 2.
Proof.
  destruct mrs as [[|[p|p|]|p] r s]; cbn [shr_m shr_1]; intros H; try lia.
  - reflexivity.
  - rewrite Pos2Z.inj_xI. apply (Z.div_unique _ _ _ 1); lia.
  - rewrite Pos2Z.inj_xO. apply (Z.div_unique _ _ _ 0); lia.
  - reflexivity.
Qed.

Lemma pow2_xO p : 2 ^ Z.pos p~0 = 2 ^ Z.pos p * 2 ^ Z.pos p.
Proof. rewrite Pos2Z.inj_xO, <- Z.pow_add_r by lia. f_equal. lia. Qed.

Lemma pow2_xI p : 2 ^ Z.pos p~1 = 2 * 2 ^ Z.pos p * 2 ^ Z.pos p.
Proof.
  rewrite Pos2Z.inj_xI, <- Z.mul_assoc, <- Z.pow_add_r, <- Z.pow_succ_r by lia.
  f_equal. lia.
Qed.

(** Shifting a mantissa right by [p] bits divides it by [2^p]. *)
Lemma iter_shr_1_m p : forall mrs,
  0 <= shr_m mrs -> shr_m (SpecFloat.iter_pos shr_1 p mrs) = shr_m mrs / 2 ^ Z.pos p.
Proof.
  assert (Hpow : forall q, 0 < 2 ^ Z.pos q) by (intros; apply Z.pow_pos_nonneg; lia).
  assert (Hnn : forall q m, 0 <= m -> 0 <= m / 2 ^ Z.pos q)
    by (intros; apply Z.div_pos; [assumption | apply Hpow]).
  induction p; intros mrs H; cbn [SpecFloat.iter_pos].
  - assert (H1 : 0 <= shr_m (shr_1 mrs)) by (rewrite shr_1_m by auto; apply Z.div_pos; lia).
    assert (H2 : 0 <= shr_m (SpecFloat.iter_pos shr_1 p (shr_1 mrs))) by (rewrite IHp; auto).
    rewrite IHp, IHp, shr_1_m by auto.
    rewrite !Z.div_div by (pose proof (Hpow p); lia).
    rewrite pow2_xI. f_equal. lia.
  - assert (H2 : 0 <= shr_m (SpecFloat.iter_pos shr_1 p mrs)) by (rewrite IHp; auto).
    rewrite IHp, IHp by auto.
    rewrite !Z.div_div by (pose proof (Hpow p); lia).
    rewrite pow2_xO. reflexivity.
  - rewrite shr_1_m by auto. reflexivity.
Qed.

Lemma fexp64 e : fexp prec emax e = Z.max (e - 53) (-1074).
Proof. reflexivity. Qed.

(** A valid mantissa has at most 53 bits, exactly 53 above the least exponent. *)
Lemma bounded_inv m e :
  bounded prec emax m e = true ->
  -1074 <= e /\ Z.pos (digits2_pos m) <= 53 /\ (-1074 < e -> Z.pos (digits2_pos m) = 53).
Proof.
  unfold bounded, canonical_mantissa. rewrite fexp64.
  intros [H _]%andb_prop. apply Z.eqb_eq in H. lia.
Qed.

Lemma shr_record_of_loc_m m l : shr_m (shr_record_of_loc m l) = m.
Proof. destruct l as [|[]]; reflexivity. Qed.

(** Rounding keeps a positive mantissa positive: at most [digits - 53] bits
    are shifted out. *)
Lemma shr_fexp_pos m e l :
  0 < m -> -1074 <= e ->
  0 < shr_m (fst (shr_fexp prec emax m e l)) /\ -1074 <= snd (shr_fexp prec emax m e l).
Proof.
  intros Hm He. unfold shr_fexp, shr. rewrite fexp64.
  destruct m as [|p|p]; try lia. cbn [Zdigits2].
  pose proof (digits2_bounds p) as [Hlo _].
  set (d := Z.pos (digits2_pos p)) in *.
  destruct (Z.max (d + e - 53) (-1074) - e) as [|q|q] eqn:E; cbn [fst snd];
    rewrite ?shr_record_of_loc_m; try lia.
  split; [|lia].
  rewrite iter_shr_1_m by (rewrite shr_record_of_loc_m; lia).
  rewrite shr_record_of_loc_m.
  assert (Hq : Z.pos q <= d - 1) by lia.
  assert (2 ^ Z.pos q <= 2 ^ (d - 1)) by (apply Z.pow_le_mono_r; lia).
  assert (0 < 2 ^ Z.pos q) by (apply Z.pow_pos_nonneg; lia).
  apply Z.div_str_pos. lia.
Qed.

Lemma round_nearest_even_ge m l : m <= round_nearest_even m l.
Proof. destruct l as [|[]]; cbn; try lia. destruct (Z.even m); lia. Qed.

Lemma binary_round_aux_sign s m e l :
  0 < m -> -1074 <= e -> signed_nonzero s (binary_round_aux prec emax s m e l).
Proof.
  intros Hm He. unfold binary_round_aux.
  pose proof (shr_fexp_pos m e l Hm He) as [H1 H2].
  destruct (shr_fexp prec emax m e l) as [mrs' e']. cbn [fst snd] in *.
  pose proof (round_nearest_even_ge (shr_m mrs') (loc_of_shr_record mrs')) as Hr.
  set (m' := round_nearest_even _ _) in *.
  assert (Hm' : 0 < m') by lia.
  pose proof (shr_fexp_pos m' e' loc_Exact Hm' H2) as [H3 H4].
  destruct (shr_fexp prec emax m' e' loc_Exact) as [mrs'' e'']. cbn [fst snd] in *.
  destruct (shr_m mrs'') as [|p|p]; try lia.
  destruct (e'' <=? emax - prec); reflexivity.
Qed.

Lemma binary_round_sign s m e :
  -1074 <= e -> signed_nonzero s (binary_round prec emax s m e).
Proof.
  intros He. unfold binary_round.
  destruct (shl_align m e _) as [mz ez] eqn:E.
  apply binary_round_aux_sign; [lia|].
  unfold shl_align in E. rewrite fexp64 in E.
  destruct (_ - e) eqn:E'; inversion E; subst; lia.
Qed.

Lemma SFltb_zero_signed s f :
  signed_nonzero s f -> SFltb (S754_zero false) f = negb s.
Proof.
  destruct f as [| | |[] ? ?]; cbn; intros H; try contradiction; subst; try reflexivity.
  all: destruct s; try reflexivity; discriminate.
Qed.

(** On valid floats the order of the pairs (exponent, mantissa) is the
    order of the mantissas aligned to a common exponent. *)
Lemma aligned_compare mx ex my ey :
  bounded prec emax mx ex = true -> bounded prec emax my ey = true ->
  (Z.pos (fst (shl_align mx ex (Z.min ex ey))) ?= Z.pos (fst (shl_align my ey (Z.min ex ey)))) =
  match ex ?= ey with Lt => Lt | Gt => Gt | Eq => Pos.compare_cont Eq mx my end.
Proof.
  intros (Hex & Hdx & Hnx)%bounded_inv (Hey & Hdy & Hny)%bounded_inv.
  rewrite !shl_align_fst by lia.
  pose proof (digits2_bounds mx) as [Hlx Hux].
  pose proof (digits2_bounds my) as [Hly Huy].
  assert (P53 : forall d, d <= 53 -> 2 ^ d <= 2 ^ 53) by (intros; apply Z.pow_le_mono_r; lia).
  destruct (Z.compare_spec ex ey) as [E|E|E].
  - subst. rewrite Z.min_id, Z.sub_diag, !Z.mul_1_r. reflexivity.
  - rewrite Z.min_l, Z.sub_diag, Z.mul_1_r by lia.
    apply Z.compare_lt_iff.
    rewrite Hny in Hly by lia.
    assert (2 ^ 1 <= 2 ^ (ey - ex)) by (apply Z.pow_le_mono_r; lia).
    specialize (P53 _ Hdx). change (2 ^ (53 - 1)) with 4503599627370496 in Hly.
    change (2 ^ 53) with 9007199254740992 in P53. change (2 ^ 1) with 2 in H. nia.
  - rewrite Z.min_r, Z.sub_diag, Z.mul_1_r by lia.
    apply Z.compare_gt_iff.
    rewrite Hnx in Hlx by lia.
    assert (2 ^ 1 <= 2 ^ (ex - ey)) by (apply Z.pow_le_mono_r; lia).
    specialize (P53 _ Hdy). change (2 ^ (53 - 1)) with 4503599627370496 in Hlx.
    change (2 ^ 53) with 9007199254740992 in P53. change (2 ^ 1) with 2 in H. nia.
Qed.

Lemma binary_normalize_sign z e :
  -1074 <= e ->
  SFltb (S754_zero false) (binary_normalize prec emax z e false) = (0 <? z).
Proof.
  intros He. destruct z as [|p|p]; cbn [binary_normalize].
  - reflexivity.
  - rewrite (SFltb_zero_signed false) by (apply binary_round_sign; lia). reflexivity.
  - rewrite (SFltb_zero_signed true) by (apply binary_round_sign; lia). reflexivity.
Qed.

(** [y - x] is positive exactly when [x < y]. *)
Lemma SFsub_sign x y :
  valid_binary x = true -> valid_binary y = true ->
  SFltb (S754_zero false) (SF64sub y x) = SFltb x y.
Proof.
  intros Hx Hy.
  destruct x as [sx|sx| |sx mx ex], y as [sy|sy| |sy my ey];
    try (repeat match goal with b : bool |- _ => destruct b end; reflexivity).
  cbn [FloatAxioms.valid_binary SpecFloat.valid_binary] in Hx, Hy.
  unfold SF64sub, SFsub.
  pose proof (bounded_inv _ _ Hx) as (Hex & _).
  pose proof (bounded_inv _ _ Hy) as (Hey & _).
  rewrite binary_normalize_sign by lia.
  pose proof (aligned_compare mx ex my ey Hx Hy) as HC.
  rewrite (Z.min_comm ey ex).
  set (A := Z.pos (fst (shl_align mx ex (Z.min ex ey)))) in *.
  set (B := Z.pos (fst (shl_align my ey (Z.min ex ey)))) in *.
  unfold SFltb, SFcompare.
  assert (HA : 0 < A) by (subst A; lia).
  assert (HB : 0 < B) by (subst B; lia).
  clearbody A B.
  destruct (Z.compare_spec A B) as [HAB|HAB|HAB];
    destruct (ex ?= ey); try destruct (Pos.compare_cont Eq mx my); try discriminate HC;
    destruct sx, sy; cbn [cond_Zopp CompOpp];
    match goal with |- (0 <? ?z) = _ => destruct (Z.ltb_spec 0 z) end;
    reflexivity || lia.
Qed.

End SF.

(** ** Facts about numbers *)

Module NumFacts.
Local Open Scope float_scope.

Lemma is_nan_spec x : is_nan x = true <-> Prim2SF x = S754_nan.
Proof.
  unfold is_nan. rewrite FloatAxioms.eqb_spec. split.
  - intros H. destruct (Prim2SF x) eqn:E; try reflexivity; exfalso;
      match type of H with negb (SFeqb ?f ?f) = true =>
        assert (H0 : SFeqb f f = true) by (apply SF.SFeqb_refl_iff; discriminate);
        rewrite H0 in H; discriminate H
      end.
  - intros ->. reflexivity.
Qed.

Lemma not_nan_spec x : is_nan x = false -> Prim2SF x <> S754_nan.
Proof. intros H Hn. apply is_nan_spec in Hn. congruence. Qed.

(** The comparator of a descending sort: [b - a] is positive exactly when
    [a < b]. *)
Lemma sub_pos_ltb x y : (0 <? y - x) = (x <? y).
Proof.
  rewrite !FloatAxioms.ltb_spec, FloatAxioms.sub_spec. change (Prim2SF 0) with (S754_zero false).
  apply SF.SFsub_sign; apply Prim2SF_valid.
Qed.

Lemma ltb_false_leb x y :
  is_nan x = false -> is_nan y = false -> (x <? y) = false -> (y <=? x) = true.
Proof.
  rewrite FloatAxioms.ltb_spec, FloatAxioms.leb_spec. intros Hx%not_nan_spec Hy%not_nan_spec.
  now apply SF.SFltb_false_leb.
Qed.

Lemma leb_trans x y z : (x <=? y) = true -> (y <=? z) = true -> (x <=? z) = true.
Proof. rewrite !FloatAxioms.leb_spec. apply SF.SFleb_trans. Qed.

Lemma ltb_leb x y : (x <? y) = true -> (x <=? y) = true.
Proof. rewrite FloatAxioms.ltb_spec, FloatAxioms.leb_spec. apply SF.SFltb_leb. Qed.

Lemma eqb_ltb_neq x y s : (x =? s) = true -> (x <? y) = true -> (y =? s) = false.
Proof. rewrite !FloatAxioms.eqb_spec, FloatAxioms.ltb_spec. apply SF.SFeqb_ltb_neq. Qed.

Lemma ltb_zero_nonzero y : (0 <? y) = true -> is_zero y = false.
Proof.
  unfold is_zero. rewrite FloatAxioms.ltb_spec, FloatAxioms.eqb_spec.
  change (Prim2SF 0) with (S754_zero false). apply SF.SFltb_zero_neq.
Qed.

Lemma or_zero_not_nan x : is_nan (Num.or_zero x) = false.
Proof.
  unfold Num.or_zero, Num.truthy.
  destruct (is_nan x) eqn:E, (is_zero x) eqn:Z; try reflexivity. exact E.
Qed.

Lemma or_zero_truthy x : Num.truthy x = true -> Num.or_zero x = x.
Proof. unfold Num.or_zero. now intros ->. Qed.

Lemma or_zero_falsy x : Num.truthy x = false -> Num.or_zero x = 0.
Proof. unfold Num.or_zero. now intros ->. Qed.

Lemma or_zero_idem x : Num.or_zero (Num.or_zero x) = Num.or_zero x.
Proof.
  unfold Num.or_zero at 2 3. destruct (Num.truthy x) eqn:E.
  - now apply or_zero_truthy.
  - reflexivity.
Qed.

End NumFacts.

(** ** colorForScore *)

Module ColorFacts.
Import Color.
Local Open Scope float_scope.

Lemma min_one y : is_nan y = false -> Num.Math_min 1 y = if 1 <? y then 1 else y.
Proof.
  intros H. unfold Num.Math_min. rewrite H. change (is_nan 1) with false. cbn [orb].
  destruct (1 <? y); [reflexivity|]. destruct (y <? 1); reflexivity.
Qed.

Lemma max_zero z : is_nan z = false -> Num.Math_max 0 z = if 0 <? z then z else 0.
Proof.
  intros H. unfold Num.Math_max. rewrite H. change (is_nan 0) with false. cbn [orb].
  destruct (0 <? z); [reflexivity|]. destruct (z <? 0); reflexivity.
Qed.

Lemma ltb_one_pos y : (1 <? y) = true -> (0 <? y) = true.
Proof.
  rewrite !FloatAxioms.ltb_spec.
  change (Prim2SF 1) with (S754_finite false 4503599627370496 (-52)).
  change (Prim2SF 0) with (S754_zero false).
  destruct (Prim2SF y) as [[]|[]| |[] m e]; cbn; congruence.
Qed.

Lemma zero_not_pos v : is_zero v = true -> (0 <? v) = false /\ (1 <? v) = false.
Proof.
  unfold is_zero. rewrite !FloatAxioms.ltb_spec, FloatAxioms.eqb_spec.
  change (Prim2SF 1) with (S754_finite false 4503599627370496 (-52)).
  change (Prim2SF 0) with (S754_zero false).
  destruct (Prim2SF v) as [[]|[]| |[] m e]; cbn; try discriminate; auto.
Qed.

Lemma nan_not_pos v : is_nan v = true -> (0 <? v) = false /\ (1 <? v) = false.
Proof.
  intros H%NumFacts.is_nan_spec. rewrite !FloatAxioms.ltb_spec, H. auto.
Qed.

(** The clamp in closed form. *)
Lemma clamp_closed v : clamp v = if 1 <? v then 1 else if 0 <? v then v else 0.
Proof.
  unfold clamp.
  rewrite min_one by apply NumFacts.or_zero_not_nan.
  unfold Num.or_zero, Num.truthy.
  destruct (is_nan v) eqn:En.
  - destruct (nan_not_pos v En) as [-> ->]. reflexivity.
  - destruct (is_zero v) eqn:Ez; cbn [orb negb].
    + destruct (zero_not_pos v Ez) as [-> ->]. reflexivity.
    + destruct (1 <? v) eqn:E1; [reflexivity|].
      rewrite max_zero by exact En. reflexivity.
Qed.

Lemma clamp_idem v : clamp (clamp v) = clamp v.
Proof.
  rewrite (clamp_closed v).
  destruct (1 <? v) eqn:E1; [reflexivity|].
  destruct (0 <? v) eqn:E0; [|reflexivity].
  rewrite clamp_closed, E1, E0. reflexivity.
Qed.

Lemma clamp_range v : (0 <=? clamp v) && (clamp v <=? 1) = true.
Proof.
  rewrite clamp_closed.
  destruct (1 <? v) eqn:E1; [reflexivity|].
  destruct (0 <? v) eqn:E0; [|reflexivity].
  rewrite (NumFacts.ltb_leb _ _ E0). cbn [andb].
  apply NumFacts.ltb_false_leb; [reflexivity| |exact E1].
  destruct (is_nan v) eqn:En; [|reflexivity].
  destruct (nan_not_pos v En) as [H _]. congruence.
Qed.

End ColorFacts.

(** C5, as the code has it.  [colorForScore] is a function of its argument
    alone; it reads the argument through the clamp, which maps every number
    into [0,1]: [NaN], the zeros and the negative numbers (with
    [-Infinity]) to [0], the numbers above [1] (with [+Infinity]) to [1],
    and leaves the numbers in between as they are.  At [0], [0.5] and [1]
    it returns the low stop, the mid stop and the high stop, written in
    lower-case hexadecimal. *)
Theorem C5_colorForScore_clamp_and_stops :
  (forall v, Color.colorForScore v = Color.colorForScore (Color.clamp v)) /\
  (forall v, Color.clamp v = if 1 <? v then 1 else if 0 <? v then v else 0)%float /\
  (forall v, (0 <=? Color.clamp v) && (Color.clamp v <=? 1) = true)%float /\
  (Color.clamp nan = 0 /\ Color.clamp neg_infinity = 0 /\ Color.clamp infinity = 1)%float /\
  (Color.colorForScore 0 = "#f8696b" /\ Color.hexToRgb (Color.colorForScore 0) = Color.RED) /\
  (Color.colorForScore 0.5 = "#ffeb84" /\ Color.hexToRgb (Color.colorForScore 0.5) = Color.YEL) /\
  (Color.colorForScore 1 = "#63be7b" /\ Color.hexToRgb (Color.colorForScore 1) = Color.GRN).
Proof.
  split; [|split; [|split; [|split]]].
  - intros v. unfold Color.colorForScore. now rewrite ColorFacts.clamp_idem.
  - exact ColorFacts.clamp_closed.
  - exact ColorFacts.clamp_range.
  - repeat split; vm_compute; reflexivity.
  - repeat split; vm_compute; reflexivity.
Qed.

(** C5 as stated fails at [+Infinity]: it is not finite, and it is not
    treated as [0] but as [1], so that it gets the colour of the high stop
    and not that of the low stop. *)
Lemma C5_counterexample_infinity_is_one :
  Num.isFinite infinity = false /\
  Color.clamp infinity = 1%float /\
  Color.colorForScore infinity = "#63be7b" /\
  Color.colorForScore 0 = "#f8696b".
Proof. repeat split; vm_compute; reflexivity. Qed.

(** ** The score cell of the two renderers *)

(** C6, as the code has it.  For a score that is a finite number the
    spreadsheet and the document give the cell the same background: the
    flat low-confidence colour below 0.60, whatever the gradient says, and
    the gradient colour from 0.60 on.  For a score that is not finite the
    spreadsheet takes white and the document takes [transparent]. *)
Theorem C6_renderers_agree_on_finite_scores :
  forall (E : Json.builtins) (v : float),
    Render.bg (Render.excel_cell E (Json.VNum v)) =
      (if Num.isFinite v
       then (if v <? 0.60 then "#FCE4E4" else Color.colorForScore v)%float
       else "#FFFFFF") /\
    Render.bg (Render.html_cell E (Json.VNum v)) =
      (if Num.isFinite v
       then (if v <? 0.60 then "#FCE4E4" else Color.colorForScore v)%float
       else "transparent") /\
    (if Num.isFinite v
     then Render.bg (Render.excel_cell E (Json.VNum v)) = Render.bg (Render.html_cell E (Json.VNum v))
     else True).
Proof.
  intros E v. cbn [Render.excel_cell Render.html_cell Render.bg Render.excel_value Render.msNum].
  unfold Render.excel_bg, Render.html_bg, Render.html_low.
  destruct (Num.isFinite v); cbn [andb]; [destruct (v <? 0.60)%float|]; auto.
Qed.

(** C6 as stated fails at [Infinity], a score the oracle can give (as the
    JSON number [1e999], or as the string ["Infinity"]): it is not below
    0.60, the spreadsheet renders it white and the document transparent,
    and none of the two uses the gradient colour. *)
Lemma C6_counterexample_infinite_score :
  (infinity <? 0.60)%float = false /\
  (forall E, Render.bg (Render.excel_cell E (Json.VNum infinity)) = "#FFFFFF") /\
  (forall E, Render.bg (Render.html_cell E (Json.VNum infinity)) = "transparent") /\
  Color.colorForScore infinity = "#63be7b".
Proof. repeat split; intros; vm_compute; reflexivity. Qed.

(** ** The answer of the oracle *)

Module OracleFacts.
Import Json Oracle.
Local Open Scope float_scope.

Lemma mapping_closed E m :
  mapping E m =
  match m with
  | VUndefined | VNull => Throw TypeError
  | _ =>
      let read k := match m with
                    | VObj props => default VUndefined (assoc k props)
                    | _ => VUndefined
                    end in
      Ok {| SourceField := or_else (read "source") (VStr "");
            SuggestedTargetPath := or_else (read "target_path") (VStr "");
            MatchScore := Num.or_zero (ToNumber E (read "score"));
            Rationale := or_else (read "rationale") (VStr "") |}
  end.
Proof. destruct m; reflexivity. Qed.

Lemma mapping_score E m r :
  mapping E m = Ok r ->
  exists score, get m "score" = Ok score /\ MatchScore r = Num.or_zero (ToNumber E score).
Proof.
  rewrite mapping_closed. destruct m; try discriminate; intros [= <-]; cbn; eauto.
Qed.

Lemma mapM_Forall2 {A B} (f : A -> result B) l rows :
  mapM f l = Ok rows -> Forall2 (fun x y => f x = Ok y) l rows.
Proof.
  revert rows. induction l as [|x l IH]; cbn; intros rows H.
  - injection H as <-. constructor.
  - destruct (f x) as [y|] eqn:Ex; cbn in H; [|discriminate].
    destruct (mapM f l) as [ys|] eqn:El; cbn in H; [|discriminate].
    injection H as <-. constructor; auto.
Qed.

(** Every row of an accepted answer is the image of an element of an array. *)
Lemma of_parsed_rows E obj rows :
  of_parsed E obj = Ok rows -> Forall (fun r => exists m, mapping E m = Ok r) rows.
Proof.
  unfold of_parsed, mappings_of, map_mappings. intros H.
  assert (Hm : exists items, mapM (mapping E) items = Ok rows).
  { destruct obj; cbn in H; try discriminate; eauto.
    all: try (injection H as <-; exists []; reflexivity).
    destruct (or_else _ _); cbn in H; try discriminate; eauto. }
  destruct Hm as [items Hm%mapM_Forall2]. clear H.
  induction Hm; constructor; eauto.
Qed.

Lemma aoaiMapBatch_rows E cfg post sourceCols targetRows sampleMap rows :
  aoaiMapBatch E cfg post sourceCols targetRows sampleMap = Ok rows ->
  Forall (fun r => exists m, mapping E m = Ok r) rows.
Proof.
  unfold aoaiMapBatch. destruct (_ || _); [discriminate|].
  destruct (post _) as [e|text]; [discriminate|]. unfold decode.
  destruct (parse_content E text) as [obj|]; cbn; [|discriminate].
  apply of_parsed_rows.
Qed.

Lemma aoaiMapBatch_elements E cfg post sourceCols targetRows sampleMap rows :
  aoaiMapBatch E cfg post sourceCols targetRows sampleMap = Ok rows ->
  Forall2 (fun m row => mapping E m = Ok row)
          (elements E (post (payload_of sourceCols targetRows sampleMap))) rows.
Proof.
  unfold aoaiMapBatch, elements. destruct (_ || _); [discriminate|].
  destruct (post _) as [e|text]; [discriminate|]. unfold decode, of_parsed.
  destruct (parse_content E text) as [obj|]; cbn; [|discriminate].
  destruct (mappings_of obj) as [mappings|]; cbn; [|discriminate].
  destruct mappings; cbn; try discriminate. apply mapM_Forall2.
Qed.

Lemma aoaiMapBatch_not_nan E cfg post sourceCols targetRows sampleMap rows :
  aoaiMapBatch E cfg post sourceCols targetRows sampleMap = Ok rows ->
  Forall (fun r => is_nan (MatchScore r) = false) rows.
Proof.
  intros H%aoaiMapBatch_rows. eapply Forall_impl; [exact H|].
  intros r' (m & (score & _ & ->)%mapping_score). apply NumFacts.or_zero_not_nan.
Qed.

End OracleFacts.



(** ** The stable sort *)

Module ArrFacts.
Local Open Scope float_scope.

Section Sorting.
Context {A : Type}.
Variable comparefn : A -> A -> float.
Variable key : A -> float.

(** The comparator orders by a key, none of whose values is [NaN]. *)
Hypothesis comparefn_key : forall x y, (0 <? comparefn x y) = (key x <? key y).
Hypothesis key_not_nan : forall x, is_nan (key x) = false.

Lemma insert_perm x xs : Permutation (x :: xs) (Arr.insert comparefn x xs).
Proof.
  induction xs as [|y xs IH]; cbn; [reflexivity|].
  destruct (0 <? comparefn x y); [|reflexivity].
  rewrite perm_swap. now constructor.
Qed.

Lemma sort_perm xs : Permutation xs (Arr.sort comparefn xs).
Proof.
  induction xs as [|x xs IH]; cbn; [constructor|].
  etransitivity; [|apply insert_perm]. now constructor.
Qed.

Lemma insert_sorted x xs :
  StronglySorted (ArrSpec.before key) xs -> StronglySorted (ArrSpec.before key) (Arr.insert comparefn x xs).
Proof.
  induction 1 as [|y xs Hs IH Hy]; cbn.
  - repeat constructor.
  - rewrite comparefn_key. destruct (key x <? key y) eqn:E.
    + constructor; [exact IH|].
      eapply Permutation_Forall; [apply insert_perm|].
      constructor; [|exact Hy]. now apply NumFacts.ltb_leb.
    + assert (Hxy : ArrSpec.before key x y) by (apply NumFacts.ltb_false_leb; auto).
      constructor; [now constructor|].
      constructor; [exact Hxy|].
      eapply Forall_impl; [exact Hy|].
      intros z Hz. unfold ArrSpec.before in *. eapply NumFacts.leb_trans; eauto.
Qed.

Lemma sort_sorted xs : StronglySorted (ArrSpec.before key) (Arr.sort comparefn xs).
Proof.
  induction xs as [|x xs IH]; cbn; [constructor|]. now apply insert_sorted.
Qed.

(** Inserting an element leaves the elements of any one key in the order
    they had, the new one first. *)
Lemma insert_filter s x xs :
  List.filter (fun a => key a =? s) (Arr.insert comparefn x xs) =
  List.filter (fun a => key a =? s) (x :: xs).
Proof.
  induction xs as [|y xs IH]; [reflexivity|].
  cbn [Arr.insert]. rewrite comparefn_key.
  destruct (key x <? key y) eqn:E; [|reflexivity].
  cbn [List.filter] in *. rewrite IH.
  destruct (key x =? s) eqn:Ex; [|reflexivity].
  now rewrite (NumFacts.eqb_ltb_neq _ _ _ Ex E).
Qed.

Lemma sort_stable s xs :
  List.filter (fun a => key a =? s) (Arr.sort comparefn xs) =
  List.filter (fun a => key a =? s) xs.
Proof.
  induction xs as [|x xs IH]; [reflexivity|].
  cbn [Arr.sort foldr]. rewrite insert_filter. cbn [List.filter].
  fold (Arr.sort comparefn xs). now rewrite IH.
Qed.

End Sorting.

Lemma StronglySorted_lookup {A} (R : A -> A -> Prop) (l : list A) i j a b :
  StronglySorted R l -> (i < j)%nat -> l !! i = Some a -> l !! j = Some b -> R a b.
Proof.
  intros Hs. revert i j. induction Hs as [|x l Hs IH Hx]; intros i j Hij Hi Hj.
  - discriminate.
  - destruct j as [|j]; [lia|]. cbn in Hj. destruct i as [|i]; cbn in Hi.
    + injection Hi as ->. rewrite Forall_forall in Hx. apply Hx.
      eapply list_elem_of_lookup_2; eauto.
    + apply (IH i j); [lia | exact Hi | exact Hj].
Qed.

End ArrFacts.

(** ** The assembly *)

Module HandlerFacts.
Import Json Handler HandlerSpec.
Local Open Scope float_scope.

Lemma settled_not_nan x : settled x -> is_nan x = false.
Proof. intros <-. apply NumFacts.or_zero_not_nan. Qed.

Lemma Set_has_spec members c : Set_has members c = true <-> VStr c ∈ members.
Proof.
  unfold Set_has. rewrite existsb_exists. split.
  - intros (v & Hin & Hv). destruct v; try discriminate.
    apply String.eqb_eq in Hv as ->. now apply list_elem_of_In.
  - intros Hin. exists (VStr c). split; [now apply list_elem_of_In|]. apply String.eqb_refl.
Qed.

Lemma Set_has_strings l c : Set_has (map VStr l) c = true <-> c ∈ l.
Proof.
  rewrite Set_has_spec. rewrite list_elem_of_fmap. split.
  - intros (y & [= ->] & Hy). exact Hy.
  - intros H. eauto.
Qed.

Lemma filter_outside (p q : list string) :
  (forall c, c ∈ p -> c ∉ q) ->
  List.filter (fun c => negb (Set_has (map VStr p) c)) (p ++ q) = q.
Proof.
  intros Hdisj. rewrite List.filter_app.
  assert (H1 : forall p', Forall (fun c => c ∈ p) p' ->
                          List.filter (fun c => negb (Set_has (map VStr p) c)) p' = []).
  { induction 1 as [|c p' Hc Hall IH]; [reflexivity|]. cbn.
    apply Set_has_strings in Hc. rewrite Hc. exact IH. }
  rewrite H1 by (apply Forall_forall; auto). cbn.
  assert (H2 : Forall (fun c => c ∉ p) q).
  { apply Forall_forall. intros c Hc Hin. exact (Hdisj c Hin Hc). }
  induction H2 as [|c q' Hc Hall IH]; [reflexivity|]. cbn.
  destruct (Set_has (map VStr p) c) eqn:Hs.
  - apply Set_has_strings in Hs. contradiction.
  - cbn. rewrite IH; [reflexivity|]. intros c' Hc' Hin. apply (Hdisj c' Hc'). now right.
Qed.

(** In a list without repetition, the elements outside a prefix are the
    rest of the list. *)
Lemma filter_outside_prefix (l : list string) k :
  NoDup l ->
  List.filter (fun c => negb (Set_has (map VStr (take k l)) c)) l = drop k l.
Proof.
  intros Hnd. rewrite <- (take_drop k l) in Hnd.
  apply NoDup_app in Hnd as (_ & Hdisj & _).
  pose proof (filter_outside (take k l) (drop k l) Hdisj) as H.
  now rewrite take_drop in H.
Qed.

Lemma Forall2_exists_l {A B} (P : A -> B -> Prop) l k :
  Forall2 P l k -> Forall (fun y => exists x, x ∈ l /\ P x y) k.
Proof.
  induction 1 as [|x y l k Hxy Hall IH]; constructor.
  - exists x. split; [left | exact Hxy].
  - eapply Forall_impl; [exact IH|].
    intros y' (x' & Hin & Hp). exists x'. split; [now right | exact Hp].
Qed.

Section Facts.
Variable E : builtins.
Variable cfg : Oracle.config.
Variable oracle : nat -> Oracle.payload -> Oracle.reply.
Variable targetDict : list Xsd.row.
Variable samples : gmap string (list string).

(** The rows that the request at index [k] of the field list brings. *)
Local Abbreviation answer_at fields k :=
  (Oracle.aoaiMapBatch E cfg (oracle k) (batch_at fields k) targetDict
     (subset_of samples (batch_at fields k))).

(** The loop concatenates the answers to the requests it sends, in order. *)
Lemma batches_inv n i fields acc res :
  batches E cfg oracle n i fields targetDict samples acc = Ok res ->
  exists chunks,
    Forall2 (fun k c => answer_at fields k = Ok c) (starts n i (length fields)) chunks /\
    res = acc ++ concat chunks.
Proof.
  revert i acc. induction n as [|n IH]; intros i acc; cbn [batches starts].
  - intros [= <-]. exists []. split; [constructor|]. cbn. now rewrite app_nil_r.
  - destruct (i <? length fields)%nat.
    + cbn zeta. destruct (answer_at fields i) as [c|] eqn:Ec; cbn [bind]; [|intros [=]].
      intros (chunks & Hall & ->)%IH. exists (c :: chunks). split; [now constructor|].
      cbn. now rewrite app_assoc.
    + intros [= <-]. exists []. split; [constructor|]. cbn. now rewrite app_nil_r.
Qed.

(** Every row the loop collects is the image of an element of an answer. *)
Lemma batches_rows fields res :
  batches E cfg oracle (length fields) 0 fields targetDict samples [] = Ok res ->
  Forall (fun r => exists k m, k ∈ starts (length fields) 0 (length fields) /\
                               m ∈ Oracle.elements E (reply_at oracle fields targetDict samples k) /\
                               Oracle.mapping E m = Ok r) res.
Proof.
  intros (chunks & Hall%Forall2_exists_l & ->)%batches_inv. cbn.
  apply Forall_concat. eapply Forall_impl; [exact Hall|].
  intros c (k & Hk & Hc). cbn in Hc.
  apply OracleFacts.aoaiMapBatch_elements, Forall2_exists_l in Hc.
  eapply Forall_impl; [exact Hc|].
  intros r (m & Hm & Hr). eauto.
Qed.

Lemma backfill_closed fields results :
  backfill fields results =
  results ++ map placeholder
                 (List.filter (fun c => negb (Set_has (map Oracle.SourceField results) c)) fields).
Proof. reflexivity. Qed.

Lemma join_fields extraByPath idx r :
  SourceOrder (join E extraByPath samples idx r) = (idx + 1)%nat /\
  SourceField (join E extraByPath samples idx r) = Oracle.SourceField r /\
  SuggestedTargetPath (join E extraByPath samples idx r) = Oracle.SuggestedTargetPath r /\
  MatchScore (join E extraByPath samples idx r) = Oracle.MatchScore r.
Proof. repeat split. Qed.

Lemma bySource_SourceField extraByPath results :
  map SourceField (imap (join E extraByPath samples) results) = map Oracle.SourceField results.
Proof.
  change (map SourceField (imap (join E extraByPath samples) results))
    with (SourceField <$> imap (join E extraByPath samples) results).
  rewrite fmap_imap. apply (imap_const Oracle.SourceField).
Qed.

Lemma bySource_MatchScore extraByPath results :
  map MatchScore (imap (join E extraByPath samples) results) = map Oracle.MatchScore results.
Proof.
  change (map MatchScore (imap (join E extraByPath samples) results))
    with (MatchScore <$> imap (join E extraByPath samples) results).
  rewrite fmap_imap. apply (imap_const Oracle.MatchScore).
Qed.

(** What [assemble] returns, spelled out. *)
Lemma assemble_inv fields bySource byScore :
  assemble E cfg oracle fields targetDict samples = Ok (bySource, byScore) ->
  exists results,
    batches E cfg oracle (length fields) 0 fields targetDict samples [] = Ok results /\
    bySource = imap (join E (extraByPath_of targetDict) samples) (backfill fields results) /\
    byScore = Arr.sort by_score bySource.
Proof.
  unfold assemble.
  destruct (batches E cfg oracle (length fields) 0 fields targetDict samples []) as [results|];
    cbn; [|discriminate].
  intros [= <- <-]. eauto.
Qed.

Lemma results_settled fields results :
  batches E cfg oracle (length fields) 0 fields targetDict samples [] = Ok results ->
  Forall (fun r => settled (Oracle.MatchScore r)) (backfill fields results).
Proof.
  intros H%batches_rows. rewrite backfill_closed. apply Forall_app. split.
  - eapply Forall_impl; [exact H|].
    intros r (k & m & _ & _ & (score & _ & ->)%OracleFacts.mapping_score).
    apply NumFacts.or_zero_idem.
  - apply Forall_forall. intros r (c & -> & _)%list_elem_of_fmap. reflexivity.
Qed.

Lemma bySource_settled fields bySource byScore :
  assemble E cfg oracle fields targetDict samples = Ok (bySource, byScore) ->
  Forall (fun a => settled (MatchScore a)) bySource.
Proof.
  intros (results & Hb%results_settled & -> & _)%assemble_inv.
  apply Forall_forall. intros a (i & r & -> & Hr)%elem_of_lookup_imap_1.
  rewrite Forall_forall in Hb. apply Hb. eapply list_elem_of_lookup_2; eauto.
Qed.

End Facts.
End HandlerFacts.



(** ** The claims on the assembly *)




(** C3.  [byScore] is a permutation of [bySource], its scores descend, and
    the rows of any one score keep the order they have in [bySource]. *)
Theorem C3_byScore_is_the_stable_descending_sort :
  forall E cfg oracle sourceFields targetDict samples bySource byScore,
    Handler.assemble E cfg oracle sourceFields targetDict samples = Ok (bySource, byScore) ->
    Permutation bySource byScore /\
    (forall i j a b,
       (i < j)%nat -> byScore !! i = Some a -> byScore !! j = Some b ->
       (Handler.MatchScore b <=? Handler.MatchScore a)%float = true) /\
    (forall s,
       List.filter (fun a => Handler.MatchScore a =? s)%float byScore =
       List.filter (fun a => Handler.MatchScore a =? s)%float bySource).
Proof.
  intros E cfg oracle fields dict samples bySource byScore H.
  pose proof (HandlerFacts.bySource_settled _ _ _ _ _ _ _ _ H) as Hs.
  apply HandlerFacts.assemble_inv in H as (results & _ & _ & ->).
  set (key := fun a => Num.or_zero (Handler.MatchScore a)).
  assert (Hkey : forall x y, (0 <? Handler.by_score x y)%float = (key x <? key y)%float)
    by (intros; apply NumFacts.sub_pos_ltb).
  assert (Hnan : forall x, is_nan (key x) = false)
    by (intros; apply NumFacts.or_zero_not_nan).
  pose proof (ArrFacts.sort_perm Handler.by_score bySource) as Hperm.
  assert (Hs' : Forall (fun a => HandlerSpec.settled (Handler.MatchScore a))
                       (Arr.sort Handler.by_score bySource))
    by (eapply Permutation_Forall; eauto).
  rewrite Forall_forall in Hs, Hs'.
  split; [exact Hperm|]. split.
  - intros i j a b Hij Ha Hb.
    pose proof (ArrFacts.StronglySorted_lookup _ _ _ _ _ _
                  (ArrFacts.sort_sorted Handler.by_score key Hkey Hnan bySource) Hij Ha Hb) as Hab.
    unfold ArrSpec.before, key in Hab.
    rewrite (Hs' a), (Hs' b) in Hab by (eapply list_elem_of_lookup_2; eauto). exact Hab.
  - intros s.
    pose proof (ArrFacts.sort_stable Handler.by_score key Hkey s bySource) as Hst.
    rewrite (List.filter_ext_in (fun a => Handler.MatchScore a =? s)%float
                                (fun a => key a =? s)%float (Arr.sort _ _)),
            (List.filter_ext_in (fun a => Handler.MatchScore a =? s)%float
                                (fun a => key a =? s)%float bySource).
    + exact Hst.
    + intros a Ha%list_elem_of_In. unfold key. now rewrite (Hs a Ha).
    + intros a Ha%list_elem_of_In. unfold key. now rewrite (Hs' a Ha).
Qed.

Lemma C3_witness_ties_keep_their_order :
  exists bySource byScore,
    Handler.assemble Examples.engine Examples.cfg Examples.B_first ["A"; "B"; "C"]
                     Examples.invoice_rows ∅ = Ok (bySource, byScore) /\
    Permutation bySource byScore /\
    map Handler.SourceOrder bySource = [1; 2; 3]%nat /\
    map Handler.SourceOrder byScore = [2; 1; 3]%nat /\
    map Handler.MatchScore byScore = [0.9; 0.4; 0.4]%float.
Proof.
  eexists. eexists. split; [vm_compute; reflexivity|]. split.
  - apply (C3_byScore_is_the_stable_descending_sort Examples.engine Examples.cfg
             Examples.B_first ["A"; "B"; "C"] Examples.invoice_rows ∅).
    vm_compute. reflexivity.
  - repeat split; vm_compute; reflexivity.
Defined.

(** C2, as the code has it.  [bySource] holds the rows the oracle gave, in
    the order it gave them, and after them one row for each field that is
    not the source of any of them, in the order of the field list, with
    score [0] and empty path and rationale; so every field has a row.
    [SourceOrder] is the position of the row in [bySource], counted from
    one.  When the sources the oracle gave are a prefix of the field list,
    in its order (so when every field is answered once and in order), and
    no field occurs twice, [bySource] has one row per field, in the order
    of the field list, and [SourceOrder] is the position of the field. *)
Theorem C2_rows_of_bySource :
  forall E cfg oracle sourceFields targetDict samples bySource byScore,
    Handler.assemble E cfg oracle sourceFields targetDict samples = Ok (bySource, byScore) ->
    exists results,
      Handler.batches E cfg oracle (length sourceFields) 0 sourceFields targetDict samples []
        = Ok results /\
      map Handler.SourceField bySource =
        map Oracle.SourceField results ++
        map Json.VStr
            (List.filter (fun c => negb (Handler.Set_has (map Oracle.SourceField results) c))
                         sourceFields) /\
      (forall c, c ∈ sourceFields -> Json.VStr c ∈ map Handler.SourceField bySource) /\
      (forall c, c ∈ sourceFields -> Json.VStr c ∉ map Oracle.SourceField results ->
                 exists i a, bySource !! i = Some a /\ (length results <= i)%nat /\
                             Handler.SourceField a = Json.VStr c /\
                             Handler.MatchScore a = 0%float /\
                             Handler.SuggestedTargetPath a = Json.VStr "" /\
                             Handler.Rationale a = Json.VStr "") /\
      (forall i a, bySource !! i = Some a -> Handler.SourceOrder a = (i + 1)%nat) /\
      (forall k, NoDup sourceFields ->
                 map Oracle.SourceField results = map Json.VStr (take k sourceFields) ->
                 map Handler.SourceField bySource = map Json.VStr sourceFields /\
                 length bySource = length sourceFields /\
                 forall i c, sourceFields !! i = Some c ->
                             exists a, bySource !! i = Some a /\
                                       Handler.SourceField a = Json.VStr c /\
                                       Handler.SourceOrder a = (i + 1)%nat).
Proof.
  intros E cfg oracle fields dict samples bySource byScore H.
  apply HandlerFacts.assemble_inv in H as (results & Hb & -> & _).
  exists results. split; [exact Hb|].
  set (absent := List.filter (fun c => negb (Handler.Set_has (map Oracle.SourceField results) c))
                             fields).
  assert (Hsrc : map Handler.SourceField
                     (imap (Handler.join E (Handler.extraByPath_of dict) samples)
                           (Handler.backfill fields results)) =
                 map Oracle.SourceField results ++ map Json.VStr absent).
  { rewrite HandlerFacts.bySource_SourceField, HandlerFacts.backfill_closed, map_app, map_map.
    reflexivity. }
  assert (Hord : forall i a,
             imap (Handler.join E (Handler.extraByPath_of dict) samples)
                  (Handler.backfill fields results) !! i = Some a ->
             Handler.SourceOrder a = (i + 1)%nat).
  { intros i a (r & _ & ->)%list_lookup_imap_Some. reflexivity. }
  split; [exact Hsrc|]. split; [|split; [|split; [exact Hord|]]].
  - intros c Hc. rewrite Hsrc. apply elem_of_app.
    destruct (Handler.Set_has (map Oracle.SourceField results) c) eqn:Hhas.
    + left. now apply HandlerFacts.Set_has_spec.
    + right. apply list_elem_of_fmap. exists c. split; [reflexivity|].
      apply list_elem_of_In, List.filter_In. split; [now apply list_elem_of_In|].
      now rewrite Hhas.
  - intros c Hc Habs.
    assert (Hin : c ∈ absent).
    { apply list_elem_of_In, List.filter_In. split; [now apply list_elem_of_In|].
      destruct (Handler.Set_has _ c) eqn:Hhas; [|reflexivity].
      apply HandlerFacts.Set_has_spec in Hhas. contradiction. }
    apply list_elem_of_lookup in Hin as [j Hj].
    exists (length results + j)%nat,
           (Handler.join E (Handler.extraByPath_of dict) samples (length results + j)
                         (HandlerSpec.placeholder c)).
    split; [|split; [lia|repeat split]].
    apply list_lookup_imap_Some. exists (HandlerSpec.placeholder c). split; [|reflexivity].
    rewrite HandlerFacts.backfill_closed, lookup_app_r by lia.
    replace (length results + j - length results)%nat with j by lia.
    fold absent. change (map HandlerSpec.placeholder absent)
      with (HandlerSpec.placeholder <$> absent).
    now rewrite list_lookup_fmap, Hj.
  - intros k Hnd Hpre.
    assert (Hall : map Handler.SourceField
                     (imap (Handler.join E (Handler.extraByPath_of dict) samples)
                           (Handler.backfill fields results)) = map Json.VStr fields).
    { rewrite Hsrc. subst absent. rewrite Hpre, HandlerFacts.filter_outside_prefix by exact Hnd.
      now rewrite <- map_app, take_drop. }
    split; [exact Hall|]. split.
    + apply (f_equal length) in Hall. now rewrite !length_map in Hall.
    + intros i c Hc.
      assert (Hi : map Json.VStr fields !! i = Some (Json.VStr c)).
      { change (map Json.VStr fields) with (Json.VStr <$> fields).
        now rewrite list_lookup_fmap, Hc. }
      rewrite <- Hall in Hi.
      change (map Handler.SourceField ?l) with (Handler.SourceField <$> l) in Hi.
      rewrite list_lookup_fmap in Hi.
      destruct (imap _ _ !! i) as [a|] eqn:Ha; [|discriminate].
      injection Hi as Hi. exists a. split; [reflexivity|]. split; [exact Hi|].
      now apply Hord.
Qed.

Lemma C2_witness_one_field_left_out :
  exists bySource byScore,
    Handler.assemble Examples.engine Examples.cfg Examples.only_Id ["Id"; "Amount"]
                     Examples.invoice_rows ∅ = Ok (bySource, byScore) /\
    NoDup ["Id"; "Amount"] /\
    length bySource = 2%nat /\
    map Handler.SourceField bySource = [Json.VStr "Id"; Json.VStr "Amount"] /\
    map Handler.SourceOrder bySource = [1; 2]%nat.
Proof.
  eexists. eexists. split; [vm_compute; reflexivity|].
  assert (Hnd : NoDup ["Id"; "Amount"]) by (apply (bool_decide_unpack _); reflexivity).
  split; [exact Hnd|].
  destruct (C2_rows_of_bySource Examples.engine Examples.cfg Examples.only_Id
              ["Id"; "Amount"] Examples.invoice_rows ∅ _ _ eq_refl)
    as (results & Hres & _ & _ & _ & _ & Hpre).
  vm_compute in Hres. injection Hres as <-.
  destruct (Hpre 1%nat Hnd eq_refl) as (Hsrc & Hlen & _).
  split; [exact Hlen|]. split; [exact Hsrc|]. vm_compute. reflexivity.
Defined.

(** C2 as stated fails when the oracle answers the second of two fields
    only, and twice: [bySource] has three rows for two fields, the first
    field comes last, and its [SourceOrder] is 3, not 1. *)
Lemma C2_counterexample_extra_and_misplaced_rows :
  exists bySource byScore,
    (forall E, Handler.assemble E Examples.cfg Examples.twice_B ["A"; "B"] [] ∅
               = Ok (bySource, byScore)) /\
    length ["A"; "B"] = 2%nat /\
    length bySource = 3%nat /\
    map Handler.SourceField bySource = [Json.VStr "B"; Json.VStr "B"; Json.VStr "A"] /\
    map Handler.SourceOrder bySource = [1; 2; 3]%nat.
Proof.
  eexists. eexists. split; [intros E; vm_compute; reflexivity|].
  repeat split.
Qed.

Lemma extraByPath_miss (targetDict : list Xsd.row) (p : string) :
  Forall (fun e => Xsd.path e <> p) targetDict ->
  Handler.extraByPath_of targetDict !! p = None.
Proof.
  unfold Handler.extraByPath_of.
  assert (H : forall m : gmap string Xsd.row,
             Forall (fun e => Xsd.path e <> p) targetDict ->
             foldl (fun m r => <[Xsd.path r := r]> m) m targetDict !! p = m !! p).
  { induction targetDict as [|e d IH]; intros m Hd; [reflexivity|].
    inversion Hd as [|? ? He Hd']; subst. cbn. rewrite IH by exact Hd'.
    now apply lookup_insert_ne. }
  intros Hd. now rewrite H.
Qed.

(** C9, as the code has it.  A row whose suggested path is the path of no
    entry of the dictionary is joined without an error (the join is a total
    function): its schema and its type are empty, and its occurs field is
    the two dots that separate the empty bounds. *)
Theorem C9_unmatched_path_joins_blank :
  forall E targetDict samples idx r,
    Forall (fun e => Json.VStr (Xsd.path e) <> Oracle.SuggestedTargetPath r) targetDict ->
    Handler.TargetSchema (Handler.join E (Handler.extraByPath_of targetDict) samples idx r) = "" /\
    Handler.TargetType (Handler.join E (Handler.extraByPath_of targetDict) samples idx r) = "" /\
    Handler.Occurs (Handler.join E (Handler.extraByPath_of targetDict) samples idx r) = "..".
Proof.
  intros E dict samples idx r H. cbn [Handler.join Handler.TargetSchema Handler.TargetType
    Handler.Occurs].
  assert (Hget : Handler.Map_get (Handler.extraByPath_of dict) (Oracle.SuggestedTargetPath r)
                 = None).
  { destruct (Oracle.SuggestedTargetPath r) as [| | | |p| |]; try reflexivity. cbn.
    apply extraByPath_miss. eapply Forall_impl; [exact H|].
    intros e He Heq. apply He. now rewrite Heq. }
  rewrite Hget. repeat split.
Qed.

Lemma C9_witness_unknown_path :
  Forall (fun e => Json.VStr (Xsd.path e) <> Json.VStr "Invoice/Missing") Examples.invoice_rows /\
  Handler.TargetSchema
    (Handler.join Examples.engine (Handler.extraByPath_of Examples.invoice_rows) ∅ 0
       {| Oracle.SourceField := Json.VStr "Id";
          Oracle.SuggestedTargetPath := Json.VStr "Invoice/Missing";
          Oracle.MatchScore := 0.9;
          Oracle.Rationale := Json.VStr "" |}) = "".
Proof.
  assert (H : Forall (fun e => Json.VStr (Xsd.path e) <> Json.VStr "Invoice/Missing")
                     Examples.invoice_rows)
    by (repeat constructor; discriminate).
  split; [exact H|].
  apply (C9_unmatched_path_joins_blank Examples.engine Examples.invoice_rows ∅ 0
           {| Oracle.SourceField := Json.VStr "Id";
              Oracle.SuggestedTargetPath := Json.VStr "Invoice/Missing";
              Oracle.MatchScore := 0.9;
              Oracle.Rationale := Json.VStr "" |} H).
Defined.

(** C9 as stated fails on the occurs field, which is not blank for a row
    that matches no entry: it is [".."]. *)
Lemma C9_counterexample_occurs_not_blank :
  (forall E,
     Handler.Occurs
       (Handler.join E (Handler.extraByPath_of Examples.invoice_rows) ∅ 0
          {| Oracle.SourceField := Json.VStr "Id";
             Oracle.SuggestedTargetPath := Json.VStr "Invoice/Missing";
             Oracle.MatchScore := 0.9;
             Oracle.Rationale := Json.VStr "" |}) = "..") /\
  String.eqb ".." "" = false.
Proof. split; [intros E; vm_compute; reflexivity | reflexivity]. Qed.

(** ** The dictionary filter *)

Module XsdFacts.
Import Xsd XsdSpec.

Lemma filter_seen_sublist seen rows : sublist (filter_seen seen rows) rows.
Proof.
  revert seen. induction rows as [|r rows IH]; intros seen; cbn; [constructor|].
  destruct (bool_decide (key r ∈ seen)); constructor; apply IH.
Qed.

Lemma filter_seen_keys seen rows :
  NoDup (map key (filter_seen seen rows)) /\
  forall r, r ∈ filter_seen seen rows -> key r ∉ seen.
Proof.
  revert seen. induction rows as [|r rows IH]; intros seen; cbn.
  - split; [constructor|]. intros r H. inversion H.
  - destruct (bool_decide (key r ∈ seen)) eqn:E.
    + apply IH.
    + apply bool_decide_eq_false in E.
      destruct (IH ({[key r]} ∪ seen)) as [Hnd Hout]. split.
      * cbn. constructor; [|exact Hnd].
        intros (r' & Hk & Hr')%list_elem_of_fmap. apply Hout in Hr'.
        apply Hr'. rewrite <- Hk. apply elem_of_union_l, elem_of_singleton. reflexivity.
      * intros r' [->|Hr']%elem_of_cons; [exact E|].
        apply Hout in Hr'. intros Hin. apply Hr'. now apply elem_of_union_r.
Qed.

Lemma filter_seen_pairs seen rows : NoDup (map pair (filter_seen seen rows)).
Proof.
  destruct (filter_seen_keys seen rows) as [Hnd _].
  apply (NoDup_fmap_1 (fun p : string * string => p.1 +:+ "|" +:+ p.2)).
  change (NoDup ((fun p : string * string => p.1 +:+ "|" +:+ p.2) <$> (pair <$> filter_seen seen rows))).
  rewrite <- list_fmap_compose. exact Hnd.
Qed.

Lemma unambiguous_tail r rows : unambiguous (r :: rows) -> unambiguous rows.
Proof. intros H r1 r2 H1 H2. apply H; now right. Qed.

(** On rows whose keys tell the pairs apart, the filter of the program is
    the deduplication of the specification. *)
Lemma filter_seen_first_wins rows : forall seenK seenP,
  unambiguous rows ->
  (forall r, r ∈ rows -> key r ∈ seenK <-> pair r ∈ seenP) ->
  filter_seen seenK rows = first_wins seenP rows.
Proof.
  induction rows as [|r rows IH]; intros seenK seenP Hun Hseen; [reflexivity|].
  cbn. assert (Hr : key r ∈ seenK <-> pair r ∈ seenP) by (apply Hseen; left).
  rewrite (bool_decide_ext _ _ Hr).
  destruct (bool_decide (pair r ∈ seenP)).
  - apply IH; [eapply unambiguous_tail; eauto|]. intros r' Hr'. apply Hseen. now right.
  - f_equal. apply IH; [eapply unambiguous_tail; eauto|].
    intros r' Hr'. rewrite !elem_of_union, !elem_of_singleton.
    rewrite (Hseen r') by now right.
    assert (key r' = key r <-> pair r' = pair r); [|tauto].
    split.
    + apply Hun; [now right | left].
    + unfold key, pair. now intros [= -> ->].
Qed.

Lemma append_inj_r s x y : s +:+ x = s +:+ y -> x = y.
Proof. induction s as [|c s IH]; cbn; [auto|]. intros [= H]. auto. Qed.

Lemma same_schema_unambiguous s rows :
  Forall (fun r => schema r = s) rows -> unambiguous rows.
Proof.
  intros H r r' Hr Hr' Hk. rewrite Forall_forall in H.
  pose proof (H r Hr) as E1. pose proof (H r' Hr') as E2. cbn beta in E1, E2.
  unfold key in Hk. unfold pair. rewrite E1, E2 in Hk |- *.
  apply append_inj_r in Hk. injection Hk as Hp. change (path r = path r') in Hp.
  now rewrite Hp.
Qed.

Lemma bar_split s1 : forall s2 p1 p2,
  has_char "|" p1 = false -> has_char "|" p2 = false ->
  s1 +:+ "|" +:+ p1 = s2 +:+ "|" +:+ p2 -> s1 = s2 /\ p1 = p2.
Proof.
  assert (Hbar : forall s p, has_char "|" (s +:+ "|" +:+ p) = true).
  { induction s as [|c s IH]; intros p; [reflexivity|].
    change (Ascii.eqb c "|" || has_char "|" (s +:+ "|" +:+ p) = true).
    rewrite IH. apply orb_true_r. }
  induction s1 as [|c s1 IH]; intros [|c' s2] p1 p2 H1 H2 H.
  - change (String "|" p1 = String "|" p2) in H. injection H as ->. auto.
  - change (String "|" p1 = String c' (s2 +:+ "|" +:+ p2)) in H. injection H as <- ->.
    rewrite Hbar in H1. discriminate.
  - change (String c (s1 +:+ "|" +:+ p1) = String "|" p2) in H. injection H as -> <-.
    rewrite Hbar in H2. discriminate.
  - change (String c (s1 +:+ "|" +:+ p1) = String c' (s2 +:+ "|" +:+ p2)) in H.
    injection H as -> H. destruct (IH _ _ _ H1 H2 H) as [-> ->]. auto.
Qed.

Lemma no_bar_unambiguous rows :
  Forall (fun r => has_char "|" (path r) = false) rows -> unambiguous rows.
Proof.
  intros H r r' Hr Hr' Hk. rewrite Forall_forall in H.
  unfold key, pair in *. destruct (bar_split _ _ _ _ (H r Hr) (H r' Hr') Hk) as [-> ->].
  reflexivity.
Qed.

(** Every row [walk] pushes carries the name of the schema. *)
Lemma walk_schema fuel complexTypes fname : forall el prefix rows rows',
  walk fuel complexTypes fname el prefix rows = Ok rows' ->
  exists new, rows' = rows ++ new /\ Forall (fun r => schema r = fname) new.
Proof.
  induction fuel as [|fuel IH]; intros el prefix rows rows'; cbn [walk]; [discriminate|].
  destruct (_ || _).
  - intros [= <-]. exists [leaf_row fname el prefix (ct_of complexTypes el)].
    split; [reflexivity|]. repeat constructor.
  - generalize (childElements (ct_of complexTypes el)) as kids.
    intros kids. revert rows rows'.
    induction kids as [|kid kids IHk]; intros rows rows'; cbn [foldl].
    + intros [= <-]. exists []. split; [now rewrite app_nil_r | constructor].
    + cbn [bind].
      destruct (walk fuel complexTypes fname kid _ rows) as [rows1|e] eqn:Ek.
      * apply IH in Ek as (new1 & -> & H1).
        intros (new2 & -> & H2)%IHk. exists (new1 ++ new2).
        split; [now rewrite app_assoc | now apply Forall_app].
      * intros H. exfalso. clear -H. induction kids as [|k ks IHks]; cbn in H; [discriminate|auto].
Qed.

Lemma discover_schema fuel fname j rows :
  discover fuel fname j = Ok rows -> Forall (fun r => schema r = fname) rows.
Proof.
  unfold discover. destruct (negb _); [intros [= <-]; constructor|].
  generalize (as_array (prop (find_schema j) "xs:element")) as elements.
  generalize (index_types (as_array (prop (find_schema j) "xs:complexType"))) as complexTypes.
  intros complexTypes elements.
  assert (H : forall acc rows,
             Forall (fun r => schema r = fname) acc ->
             foldl (fun acc gel => rows <- acc ;; walk fuel complexTypes fname gel "" rows)
                   (Ok acc) elements = Ok rows ->
             Forall (fun r => schema r = fname) rows).
  { induction elements as [|gel elements IH]; intros acc rows' Hacc; cbn [foldl bind].
    - now intros [= <-].
    - destruct (walk fuel complexTypes fname gel "" acc) as [rows1|e] eqn:Ek.
      + apply walk_schema in Ek as (new & -> & Hnew). apply IH. now apply Forall_app.
      + intros H. exfalso. clear -H.
        induction elements as [|k ks IHks]; cbn in H; [discriminate|auto]. }
  apply H. constructor.
Qed.

End XsdFacts.


(** ** The recursion of walk *)

Module WalkFacts.
Import Xsd XsdSpec.

Lemma as_array_size c m : m ∈ as_array (Some c) -> node_size m <= child_size c.
Proof.
  destruct c as [n|items]; cbn.
  - destruct (node_truthy n); [|intros H; inversion H].
    intros ->%list_elem_of_singleton. lia.
  - induction items as [|x items IH]; intros H; inversion H; subst; cbn; [lia|].
    match goal with H' : m ∈ items |- _ => specialize (IH H') end. lia.
Qed.

Lemma assoc_size k tags c :
  Json.assoc k tags = Some c ->
  child_size c <= foldr (fun kc acc => child_size (snd kc) + acc) 0 tags.
Proof.
  induction tags as [|[k' c'] tags IH]; cbn; [discriminate|].
  destruct (String.eqb k' k); [intros [= ->]; lia|]. intros H%IH. lia.
Qed.

Lemma tag_size n k m : m ∈ as_array (tag n k) -> node_size m < node_size n.
Proof.
  destruct n as [v|attrs tags]; cbn; [intros H; inversion H|].
  destruct (Json.assoc k tags) as [c|] eqn:E; [|intros H; inversion H].
  intros H%as_array_size. apply assoc_size in E. lia.
Qed.

(** The children found below a tag of [el] are smaller than [el]. *)
Lemma childElements_size el k kid :
  kid ∈ childElements (tag el k) -> node_size kid < node_size el.
Proof.
  unfold childElements. destruct (negb (truthy (tag el k))); [intros H; inversion H|].
  intros (t & _ & Hkid)%list_elem_of_In%in_flat_map.
  apply in_flat_map in Hkid as (s & Hs%list_elem_of_In & Hkid%list_elem_of_In).
  apply tag_size in Hkid.
  assert (node_size s < node_size el); [|lia].
  unfold prop in Hs. destruct (tag el k) as [[n|items]|] eqn:Et; try (inversion Hs; fail).
  assert (Hn : node_truthy n = true) by (destruct n; [inversion Hs | reflexivity]).
  apply tag_size in Hs.
  assert (node_size n < node_size el); [|lia].
  apply (tag_size el k). rewrite Et. cbn. rewrite Hn. left.
Qed.

Lemma ct_of_cases complexTypes el :
  (exists b ct, named complexTypes el b /\ complexTypes !! b = Some ct /\
                ct_of complexTypes el = Some (One ct)) \/
  ((forall b, ~ named complexTypes el b) /\ ct_of complexTypes el = inline_ct el).
Proof.
  unfold ct_of, named. fold (inline_ct el).
  destruct (tname_of el) as [t|]; [|right; split; [intros b [[=] _] | reflexivity]].
  destruct (Str.truthy t) eqn:Et;
    [|right; split; [intros b ([= <-] & Hb & _); congruence | reflexivity]].
  destruct (complexTypes !! t) as [ct|] eqn:El;
    [|right; split; [intros b ([= <-] & _ & ct & Hct & _); congruence | reflexivity]].
  destruct (node_truthy ct) eqn:Ect.
  - left. exists t, ct. repeat split; eauto.
  - right. split; [|reflexivity]. intros b ([= <-] & _ & ct' & Hct & Htr). congruence.
Qed.

Lemma inline_ct_size el kid :
  kid ∈ childElements (inline_ct el) -> node_size kid < node_size el.
Proof.
  unfold inline_ct. destruct (truthy (tag el "xs:complexType")).
  - apply childElements_size.
  - cbn. intros H. inversion H.
Qed.

Section Walk.
Variable complexTypes : gmap string node.
Variable fname : string.

Local Abbreviation returns := (XsdSpec.returns complexTypes fname).

Lemma loop_cons g acc k kids :
  loop g acc (k :: kids) = loop g (rows' <- acc ;; g k rows') kids.
Proof. reflexivity. Qed.

Lemma loop_throw g e kids : loop g (Throw e) kids = Throw e.
Proof. induction kids as [|k kids IH]; [reflexivity | exact IH]. Qed.

Lemma loop_mono (g1 g2 : node -> list row -> result (list row)) kids :
  (forall kid rows r, g1 kid rows = Ok r -> g2 kid rows = Ok r) ->
  forall rows r, loop g1 (Ok rows) kids = Ok r -> loop g2 (Ok rows) kids = Ok r.
Proof.
  intros Hg. induction kids as [|k kids IH]; intros rows r; [auto|].
  rewrite !loop_cons. cbn [bind].
  destruct (g1 k rows) as [rows1|e] eqn:E1.
  - rewrite (Hg _ _ _ E1). apply IH.
  - rewrite loop_throw. discriminate.
Qed.

Lemma loop_ok (g : node -> list row -> result (list row)) kids :
  Forall (fun kid => forall rows, exists r, g kid rows = Ok r) kids ->
  forall rows, exists r, loop g (Ok rows) kids = Ok r.
Proof.
  induction 1 as [|k kids Hk Hall IH]; intros rows; [now exists rows|].
  rewrite loop_cons. cbn [bind].
  destruct (Hk rows) as [rows1 ->]. apply IH.
Qed.

Lemma walk_unfold fuel el prefix rows :
  walk (S fuel) complexTypes fname el prefix rows =
  if negb (bool_decide (is_Some (ct_of complexTypes el)))
     || (length (childElements (ct_of complexTypes el)) =? 0)%nat
  then Ok (rows ++ [leaf_row fname el prefix (ct_of complexTypes el)])
  else loop (fun kid rows' =>
               walk fuel complexTypes fname kid (pathStr_of prefix (elName_of el)) rows')
            (Ok rows) (childElements (ct_of complexTypes el)).
Proof. reflexivity. Qed.

(** More stack never changes a result. *)
Lemma walk_S fuel : forall el prefix rows r,
  walk fuel complexTypes fname el prefix rows = Ok r ->
  walk (S fuel) complexTypes fname el prefix rows = Ok r.
Proof.
  induction fuel as [|fuel IH]; intros el prefix rows r; [discriminate|].
  rewrite !walk_unfold. destruct (_ || _); [auto|].
  apply loop_mono. intros kid rows' r'. apply IH.
Qed.

Lemma walk_mono fuel fuel' el prefix rows r :
  fuel <= fuel' ->
  walk fuel complexTypes fname el prefix rows = Ok r ->
  walk fuel' complexTypes fname el prefix rows = Ok r.
Proof. induction 1 as [|m Hle IH]; [auto|]. intros Hw. now apply walk_S, IH. Qed.

Lemma returns_all kids :
  Forall returns kids ->
  exists fuel, Forall (fun kid => forall prefix rows, exists r,
                         walk fuel complexTypes fname kid prefix rows = Ok r) kids.
Proof.
  induction 1 as [|k kids [f1 Hk] Hall [f2 IH]]; [exists 0; constructor|].
  exists (f1 `max` f2). constructor.
  - intros prefix rows. destruct (Hk prefix rows) as [r Hr]. exists r.
    eapply walk_mono; [|exact Hr]. lia.
  - eapply Forall_impl; [exact IH|]. intros kid Hkid prefix rows.
    destruct (Hkid prefix rows) as [r Hr]. exists r.
    eapply walk_mono; [|exact Hr]. lia.
Qed.

(** [walk] returns on an element when it returns on the children it finds. *)
Lemma returns_step el :
  Forall returns (childElements (ct_of complexTypes el)) -> returns el.
Proof.
  intros [fuel Hkids]%returns_all. exists (S fuel). intros prefix rows.
  rewrite walk_unfold. destruct (_ || _); [eauto|].
  apply loop_ok. eapply Forall_impl; [exact Hkids|]. intros kid Hk rows'. apply Hk.
Qed.

(** Inside a type from which no chain of references is infinite. *)
Lemma returns_within a :
  sn (refers complexTypes) a -> forall el, within complexTypes a el -> returns el.
Proof.
  induction 1 as [a _ IHa]. intros el.
  remember (node_size el) as n eqn:Hn. revert el Hn.
  induction (lt_wf n) as [n _ IHn]. intros el -> Hel.
  apply returns_step. apply Forall_forall. intros kid Hkid.
  destruct (ct_of_cases complexTypes el) as [(b & ct & Hb & Hct & Heq)|[Hno Heq]].
  - apply (IHa b).
    + exists el. split; assumption.
    + rewrite Heq in Hkid. eapply within_top; eauto.
  - apply (IHn (node_size kid)); [|reflexivity|].
    + rewrite Heq in Hkid. now apply inline_ct_size.
    + eapply within_inline; [exact Hel|]. split; assumption.
Qed.

Lemma refers_finite a : pred_finite (tc (refers complexTypes) a).
Proof.
  exists (map fst (map_to_list complexTypes)). intros b Hab.
  assert (H : exists x, refers complexTypes x b).
  { clear -Hab. induction Hab as [x y H|x y z H _ IH]; eauto. }
  destruct H as (x & el & _ & _ & _ & ct & Hct & _).
  apply list_elem_of_fmap. exists (b, ct). split; [reflexivity|].
  now apply elem_of_map_to_list.
Qed.

(** Without a cycle of references, [walk] returns on every element. *)
Lemma acyclic_returns el : acyclic complexTypes -> returns el.
Proof.
  intros Hac.
  assert (Hsn : forall a, sn (refers complexTypes) a).
  { intros a. apply tc_finite_sn; [|apply refers_finite]. intros x Hx. exact (Hac x Hx). }
  remember (node_size el) as n eqn:Hn. revert el Hn.
  induction (lt_wf n) as [n _ IHn]. intros el ->.
  apply returns_step. apply Forall_forall. intros kid Hkid.
  destruct (ct_of_cases complexTypes el) as [(b & ct & Hb & Hct & Heq)|[Hno Heq]].
  - apply (returns_within b (Hsn b)). rewrite Heq in Hkid. eapply within_top; eauto.
  - apply (IHn (node_size kid)); [|reflexivity].
    rewrite Heq in Hkid. now apply inline_ct_size.
Qed.

End Walk.
End WalkFacts.






Lemma customer_types : XsdSpec.types_of Schemas.customer = {[ "Address" := Schemas.Address ]}.
Proof. reflexivity. Qed.

Lemma customer_acyclic : XsdSpec.acyclic (XsdSpec.types_of Schemas.customer).
Proof.
  rewrite customer_types.
  assert (Hw : forall a el,
             XsdSpec.within {[ "Address" := Schemas.Address ]} a el ->
             el = Schemas.street \/ el = Schemas.city).
  { induction 1 as [ct el Hct Hel|el kid _ IH [_ Hkid]].
    - apply lookup_singleton_Some in Hct as [_ <-].
      cbn in Hel. repeat (apply elem_of_cons in Hel as [->|Hel]; [auto|]). inversion Hel.
    - destruct IH as [-> | ->]; cbn in Hkid; inversion Hkid. }
  assert (Hr : forall a b, ~ XsdSpec.refers {[ "Address" := Schemas.Address ]} a b).
  { intros a b (el & Hel%Hw & Hn & _ & ct & Hct & _).
    apply lookup_singleton_Some in Hct as [<- _].
    destruct Hel as [-> | ->]; discriminate Hn. }
  intros a Ht. inversion Ht as [? ? H|? y ? H _]; exact (Hr _ _ H).
Qed.


(** ** The scenarios of the specification, run on the model *)

Example invoice_flattens_to_two_entries :
  Xsd.parseXsdPaths 2 "invoice.xsd" Schemas.invoice = Ok Examples.invoice_rows.
Proof. vm_compute. reflexivity. Qed.

Example customer_flattens :
  exists rows,
    Xsd.parseXsdPaths 3 "customer.xsd" Schemas.customer = Ok rows /\
    map Xsd.path rows = ["Customer/home/street"; "Customer/home/city"; "Customer/id"].
Proof. eexists. split; vm_compute; reflexivity. Qed.

(** A type that refers to itself exhausts the stack, however deep. *)
Example looping_overflows_at_depth_50 :
  Xsd.parseXsdPaths 50 "loop.xsd" Schemas.looping = Throw RangeError.
Proof. vm_compute. reflexivity. Qed.

(** A hundred and thirty fields go to the oracle in three requests, of
    sixty, sixty and ten fields. *)
Example a_hundred_and_thirty_fields_take_three_requests :
  HandlerSpec.starts 130 0 130 = [0; 60; 120]%nat /\
  map (fun i => length (Handler.batch_at (replicate 130 "f") i)) [0; 60; 120]%nat
    = [60; 60; 10]%nat.
Proof. split; vm_compute; reflexivity. Qed.

(** With a bar in a name, which no XML schema allows, two entries of
    different [(schema, path)] have one key, and the filter drops the
    second. *)
Example bar_in_a_name_merges_two_keys :
  Handler.targetDict_of 2
    [("a|b", Xsd.Elem [] [("xs:schema", Xsd.One (Xsd.Elem []
                 [("xs:element", Xsd.One (Schemas.element [("name", "c")]))]))]);
     ("a", Xsd.Elem [] [("xs:schema", Xsd.One (Xsd.Elem []
                 [("xs:element", Xsd.One (Schemas.element [("name", "b|c")]))]))])]
  = Ok [ {| Xsd.schema := "a|b"; Xsd.path := "c"; Xsd.name := "c";
            Xsd.type := "simpleType"; Xsd.minOccurs := "1"; Xsd.maxOccurs := "1" |} ].
Proof. vm_compute. reflexivity. Qed.

(* ================================================================== *)
(** * Part IV: further properties of the code *)
(* ================================================================== *)

(** ** sniffDelimiter and the first line *)

Module SourceFacts.
Import Source.
Local Open Scope Z_scope.

Lemma count_nonneg c s : 0 <= count c s.
Proof. induction s as [|a s IH]; cbn [count]; [lia|]. destruct (Ascii.eqb a c); lia. Qed.

Lemma count_app c s t : count c (s +:+ t) = count c s + count c t.
Proof.
  induction s as [|a s IH]; [reflexivity|].
  change (String a s +:+ t) with (String a (s +:+ t)). cbn [count]. rewrite IH. lia.
Qed.

(** The delimiter depends on the line through the four counts only. *)
Lemma sniffDelimiter_ext s t :
  Forall (fun c => count c s = count c t) candidates -> sniffDelimiter s = sniffDelimiter t.
Proof.
  intros H. unfold sniffDelimiter, candidates in *. cbn [foldl].
  repeat match goal with
         | H : Forall _ (_ :: _) |- _ =>
             let E := fresh "E" in apply Forall_cons in H as [E H]; rewrite E
         end.
  reflexivity.
Qed.

Lemma first_line_whole line : XsdSpec.has_char "010" line = false -> first_line line = line.
Proof.
  induction line as [|a l IH]; [reflexivity|]. cbn [XsdSpec.has_char first_line].
  intros [Ha Hl]%orb_false_elim. rewrite Ha.
  replace (Ascii.eqb a "013" && at_line_feed l) with false; [now rewrite IH|].
  destruct l as [|b l']; [now rewrite andb_false_r|].
  cbn [XsdSpec.has_char] in Hl. apply orb_false_elim in Hl as [Hb _].
  cbn [at_line_feed]. rewrite Hb. now rewrite andb_false_r.
Qed.

Lemma first_line_count c line rest :
  XsdSpec.has_char "010" line = false -> c <> "013"%char ->
  count c (first_line (line +:+ String "010" rest)) = count c line.
Proof.
  intros Hl Hc. induction line as [|a l IH]; [reflexivity|].
  change (String a l +:+ String "010" rest) with (String a (l +:+ String "010" rest)).
  cbn [XsdSpec.has_char] in Hl. apply orb_false_elim in Hl as [Ha Hl].
  cbn [first_line]. rewrite Ha.
  destruct (Ascii.eqb a "013" && at_line_feed (l +:+ String "010" rest)) eqn:Ecr.
  - apply andb_prop in Ecr as [Ea Elf]. apply Ascii.eqb_eq in Ea. subst a.
    destruct l as [|b l'].
    + cbn [count]. destruct (Ascii.eqb_spec "013" c) as [<-|_]; [contradiction|reflexivity].
    + change (String b l' +:+ String "010" rest) with (String b (l' +:+ String "010" rest)) in Elf.
      cbn [at_line_feed] in Elf. cbn [XsdSpec.has_char] in Hl.
      apply orb_false_elim in Hl as [Hb _]. congruence.
  - cbn [count]. now rewrite IH.
Qed.

Lemma delimiter_of_first_line head : delimiter_of head = sniffDelimiter (first_line head).
Proof.
  unfold delimiter_of, Str.or_else. destruct (first_line head); reflexivity.
Qed.

Lemma candidates_not_cr : Forall (fun c => c <> "013"%char) candidates.
Proof. repeat constructor; discriminate. Qed.

End SourceFacts.

(** X1.  [sniffDelimiter] returns the first of the candidates [,] [;] tab
    [|] that occurs most often in the line: the candidates before it occur
    less often, the candidates after it do not occur more often.  When none
    occurs, that is the comma. *)
Theorem X1_sniffDelimiter_first_most_frequent :
  forall firstLine,
    let best := Source.sniffDelimiter firstLine in
    exists before after,
      Source.candidates = before ++ best :: after /\
      Forall (fun c => (Source.count c firstLine < Source.count best firstLine)%Z) before /\
      Forall (fun c => (Source.count c firstLine <= Source.count best firstLine)%Z) after.
Proof.
  intros firstLine. cbv zeta. unfold Source.sniffDelimiter, Source.candidates.
  cbn [foldl fst snd].
  pose proof (SourceFacts.count_nonneg "," firstLine) as Ha.
  pose proof (SourceFacts.count_nonneg ";" firstLine) as Hb.
  pose proof (SourceFacts.count_nonneg "009" firstLine) as Hc.
  pose proof (SourceFacts.count_nonneg "|" firstLine) as Hd.
  remember (Source.count "," firstLine) as a eqn:Ea.
  remember (Source.count ";" firstLine) as b eqn:Eb.
  remember (Source.count "009" firstLine) as c eqn:Ec.
  remember (Source.count "|" firstLine) as d eqn:Ed.
  replace (-1 <? a)%Z with true by (symmetry; apply Z.ltb_lt; lia). cbn [fst snd].
  repeat match goal with
         | |- context [(?x <? ?y)%Z] =>
             is_var x; is_var y; destruct (Z.ltb_spec x y); cbn [fst snd]
         end.
  all: first [ exists [], [";"; "009"; "|"]%char; split; [reflexivity|]
             | exists [","]%char, ["009"; "|"]%char; split; [reflexivity|]
             | exists [","; ";"]%char, ["|"]%char; split; [reflexivity|]
             | exists [","; ";"; "009"]%char, []; split; [reflexivity|] ];
    split; repeat constructor;
    rewrite <- ?Ea, <- ?Eb, <- ?Ec, <- ?Ed; lia.
Qed.

(** X2.  The delimiter of a file is sniffed from its first line: what
    follows the first line feed, or the carriage return and line feed, has
    no part in it, and the comma that stands for an empty first line gives
    what the empty line gives. *)
Theorem X2_delimiter_is_sniffed_from_the_first_line :
  forall line rest,
    XsdSpec.has_char "010" line = false ->
    Source.delimiter_of line = Source.sniffDelimiter line /\
    Source.delimiter_of (line +:+ String "010" rest) = Source.sniffDelimiter line /\
    Source.delimiter_of (line +:+ String "013" (String "010" rest)) = Source.sniffDelimiter line.
Proof.
  intros line rest Hl. rewrite !SourceFacts.delimiter_of_first_line.
  split; [now rewrite SourceFacts.first_line_whole|]. split.
  - apply SourceFacts.sniffDelimiter_ext.
    eapply Forall_impl; [exact SourceFacts.candidates_not_cr|].
    intros c Hc. now apply SourceFacts.first_line_count.
  - apply SourceFacts.sniffDelimiter_ext.
    eapply Forall_impl; [exact SourceFacts.candidates_not_cr|].
    intros c Hc.
    replace (line +:+ String "013" (String "010" rest))
      with ((line +:+ String "013" EmptyString) +:+ String "010" rest).
    + rewrite SourceFacts.first_line_count; [| |exact Hc].
      * rewrite SourceFacts.count_app. cbn [Source.count].
        destruct (Ascii.eqb_spec "013" c) as [<-|_]; [contradiction|lia].
      * clear -Hl. induction line as [|a l IH]; [reflexivity|].
        cbn [XsdSpec.has_char] in Hl. apply orb_false_elim in Hl as [Ha Hl].
        change (String a l +:+ String "013" EmptyString)
          with (String a (l +:+ String "013" EmptyString)).
        cbn [XsdSpec.has_char]. rewrite Ha. now apply IH.
    + clear. induction line as [|a l IH]; [reflexivity|].
      change (String a l +:+ ?x) with (String a (l +:+ x)). now rewrite <- IH.
Qed.

Lemma X2_witness_semicolons :
  XsdSpec.has_char "010" "id;name;amount" = false /\
  Source.delimiter_of ("id;name;amount" +:+ String "013" (String "010" "1,2,3,4,5,6"))
    = ";"%char.
Proof.
  split; [reflexivity|].
  exact (proj2 (proj2 (X2_delimiter_is_sniffed_from_the_first_line
                         "id;name;amount" "1,2,3,4,5,6" eq_refl))).
Defined.

(** ** The entities of esc *)

Module HtmlFacts.
Import Html.

Ltac norm_append :=
  repeat first [ progress change (String ?a ?s +:+ ?t) with (String a (s +:+ t)) in *
               | progress change (EmptyString +:+ ?t) with t in * ].

Lemma entity_cases c :
  (c = "&"%char /\ entity c = "&amp;") \/
  (c = "<"%char /\ entity c = "&lt;") \/
  (c = ">"%char /\ entity c = "&gt;") \/
  (c <> "&"%char /\ c <> "<"%char /\ c <> ">"%char /\ entity c = String c EmptyString).
Proof.
  unfold entity.
  destruct (Ascii.eqb_spec c "&") as [->|H1]; [now left|].
  destruct (Ascii.eqb_spec c "<") as [->|H2]; [now right; left|].
  destruct (Ascii.eqb_spec c ">") as [->|H3]; [now right; right; left|].
  now right; right; right.
Qed.

Lemma has_char_app c s t :
  XsdSpec.has_char c (s +:+ t) = XsdSpec.has_char c s || XsdSpec.has_char c t.
Proof.
  induction s as [|a s IH]; [reflexivity|]. norm_append. cbn [XsdSpec.has_char].
  now rewrite IH, orb_assoc.
Qed.

Lemma replace_entities_app s t :
  replace_entities (s +:+ t) = replace_entities s +:+ replace_entities t.
Proof.
  induction s as [|a s IH]; [reflexivity|]. norm_append. cbn [replace_entities].
  rewrite IH. generalize (entity a) as e. intros e.
  induction e as [|b e IHe]; [reflexivity|]. norm_append. now rewrite IHe.
Qed.

Lemma replace_entities_no_angle s :
  XsdSpec.has_char "<" (replace_entities s) = false /\
  XsdSpec.has_char ">" (replace_entities s) = false.
Proof.
  induction s as [|a s [IH1 IH2]]; [split; reflexivity|]. cbn [replace_entities].
  rewrite !has_char_app, IH1, IH2, !orb_false_r.
  destruct (entity_cases a) as [[-> ->]|[[-> ->]|[[-> ->]|(H1 & H2 & H3 & ->)]]];
    try (split; reflexivity).
  cbn [XsdSpec.has_char]. rewrite !orb_false_r.
  split; apply Ascii.eqb_neq; assumption.
Qed.

Lemma replace_entities_inj s : forall t, replace_entities s = replace_entities t -> s = t.
Proof.
  induction s as [|c s IH]; intros [|d t]; cbn [replace_entities]; [reflexivity| | |].
  - destruct (entity_cases d) as [[-> ->]|[[-> ->]|[[-> ->]|(_ & _ & _ & ->)]]];
      norm_append; discriminate.
  - destruct (entity_cases c) as [[-> ->]|[[-> ->]|[[-> ->]|(_ & _ & _ & ->)]]];
      norm_append; discriminate.
  - destruct (entity_cases c) as [[-> ->]|[[-> ->]|[[-> ->]|(C1 & C2 & C3 & ->)]]];
    destruct (entity_cases d) as [[-> ->]|[[-> ->]|[[-> ->]|(D1 & D2 & D3 & ->)]]];
      norm_append; intros H; try discriminate H;
      try (injection H as H; f_equal; now apply IH);
      try (injection H as H' H; congruence).
    injection H as -> H. f_equal. now apply IH.
Qed.

Lemma prefix_app p s : String.prefix p (p +:+ s) = true.
Proof.
  induction p as [|a p IH]; [now destruct s|]. norm_append. cbn [String.prefix].
  destruct (ascii_dec a a) as [_|N]; [exact IH | now contradiction N].
Qed.

Lemma replace_entities_entities_only s : HtmlSpec.entities_only (replace_entities s) = true.
Proof.
  induction s as [|a s IH]; [reflexivity|]. cbn [replace_entities].
  destruct (entity_cases a) as [[-> ->]|[[-> ->]|[[-> ->]|(H1 & _ & _ & ->)]]].
  - change ("&amp;" +:+ ?r) with (String "&" ("amp;" +:+ r)).
    cbn [HtmlSpec.entities_only]. rewrite Ascii.eqb_refl, prefix_app. norm_append.
    cbn. exact IH.
  - change ("&lt;" +:+ ?r) with (String "&" ("lt;" +:+ r)).
    cbn [HtmlSpec.entities_only]. rewrite Ascii.eqb_refl, prefix_app, orb_true_r. norm_append.
    cbn. exact IH.
  - change ("&gt;" +:+ ?r) with (String "&" ("gt;" +:+ r)).
    cbn [HtmlSpec.entities_only]. rewrite Ascii.eqb_refl, prefix_app, orb_true_r. norm_append.
    cbn. exact IH.
  - norm_append. cbn [HtmlSpec.entities_only].
    apply Ascii.eqb_neq in H1. rewrite H1. exact IH.
Qed.

End HtmlFacts.

(** X3.  Whatever the value, the text that [esc] makes of it holds neither
    [<] nor [>], and every [&] in it starts one of the entities [&amp;],
    [&lt;] and [&gt;]: a cell, a header or a title cannot open or close a
    tag. *)
Theorem X3_esc_leaves_no_angle_bracket :
  forall E v,
    XsdSpec.has_char "<" (Html.esc E v) = false /\
    XsdSpec.has_char ">" (Html.esc E v) = false /\
    HtmlSpec.entities_only (Html.esc E v) = true.
Proof.
  intros E v. unfold Html.esc.
  split; [apply HtmlFacts.replace_entities_no_angle|].
  split; [apply HtmlFacts.replace_entities_no_angle|].
  apply HtmlFacts.replace_entities_entities_only.
Qed.

(** X4.  The replacement of [&], [<] and [>] by their entities loses
    nothing: two texts have the same replacement only when they are the
    same text, and the replacement of a concatenation is the concatenation
    of the replacements. *)
Theorem X4_entities_lose_nothing :
  forall s t,
    (Html.replace_entities s = Html.replace_entities t <-> s = t) /\
    Html.replace_entities (s +:+ t) = Html.replace_entities s +:+ Html.replace_entities t.
Proof.
  intros s t. split; [split|].
  - apply HtmlFacts.replace_entities_inj.
  - now intros ->.
  - apply HtmlFacts.replace_entities_app.
Qed.

(** ** Cycles of complex types *)

Module CycleFacts.
Import Xsd XsdSpec XsdSpec.

Lemma loop_ok_inv (g : node -> list row -> result (list row)) kids :
  forall rows r, loop g (Ok rows) kids = Ok r ->
  Forall (fun kid => exists rows' r', g kid rows' = Ok r') kids.
Proof.
  induction kids as [|k kids IH]; intros rows r; [constructor|].
  rewrite WalkFacts.loop_cons. cbn [bind].
  destruct (g k rows) as [rows1|e] eqn:Ek.
  - intros H. constructor; [eauto | eapply IH; eauto].
  - rewrite WalkFacts.loop_throw. discriminate.
Qed.

(** A loop whose calls throw nothing but [e] throws nothing but [e]. *)
Lemma loop_throw_only (g : node -> list row -> result (list row)) e kids :
  (forall kid rows e', g kid rows = Throw e' -> e' = e) ->
  forall acc e', (forall e'', acc = Throw e'' -> e'' = e) ->
                 loop g acc kids = Throw e' -> e' = e.
Proof.
  intros Hg. induction kids as [|k kids IH]; intros acc e' Hacc; [apply Hacc|].
  rewrite WalkFacts.loop_cons. apply IH.
  intros e''. destruct acc as [rows|e0]; cbn [bind]; [apply Hg | apply Hacc].
Qed.

(** A loop one of whose calls always throws does throw. *)
Lemma loop_throws (g : node -> list row -> result (list row)) kid kids :
  kid ∈ kids -> (forall rows, exists e, g kid rows = Throw e) ->
  forall acc, exists e, loop g acc kids = Throw e.
Proof.
  intros Hin Hk. induction kids as [|k kids IH]; intros acc; [inversion Hin|].
  rewrite WalkFacts.loop_cons.
  apply elem_of_cons in Hin as [<-|Hin]; [|now apply IH].
  destruct acc as [rows|e]; cbn [bind].
  - destruct (Hk rows) as [e ->]. exists e. apply WalkFacts.loop_throw.
  - exists e. apply WalkFacts.loop_throw.
Qed.

Section Cycle.
Variable complexTypes : gmap string node.
Variable fname : string.

(** [walk] throws nothing but the RangeError of the exhausted stack. *)
Lemma walk_throws_range fuel : forall el prefix rows e,
  walk fuel complexTypes fname el prefix rows = Throw e -> e = RangeError.
Proof.
  induction fuel as [|fuel IH]; intros el prefix rows e; [now intros [= <-]|].
  rewrite WalkFacts.walk_unfold. destruct (_ || _); [discriminate|].
  apply loop_throw_only; [|discriminate]. intros kid rows' e'. apply IH.
Qed.

(** When [walk] returns on an element, it has returned on each of its
    children, one level deeper. *)
Lemma returns_kid fuel el kid :
  returns_at complexTypes fname fuel el ->
  kid ∈ childElements (ct_of complexTypes el) ->
  exists fuel', fuel' < fuel /\ returns_at complexTypes fname fuel' kid.
Proof.
  intros (prefix & rows & r & Hw) Hkid. destruct fuel as [|fuel]; [discriminate|].
  rewrite WalkFacts.walk_unfold in Hw.
  destruct (negb _ || _) eqn:Eleaf.
  - exfalso. apply orb_prop in Eleaf as [Hn|Hz].
    + apply negb_true_iff, bool_decide_eq_false in Hn.
      destruct (ct_of complexTypes el) as [c|]; [apply Hn; eauto|].
      cbn in Hkid. inversion Hkid.
    + apply Nat.eqb_eq in Hz. destruct (childElements _); [inversion Hkid|discriminate].
  - apply loop_ok_inv in Hw. rewrite Forall_forall in Hw.
    destruct (Hw kid Hkid) as (rows' & r' & Hk).
    exists fuel. split; [lia|]. now exists (pathStr_of prefix (elName_of el)), rows', r'.
Qed.

Lemma named_ct el a ct :
  named complexTypes el a -> complexTypes !! a = Some ct ->
  ct_of complexTypes el = Some (One ct).
Proof.
  intros Hn Hct.
  destruct (WalkFacts.ct_of_cases complexTypes el) as [(b & ct' & Hb & Hct' & Heq)|[Hno _]].
  - destruct Hn as (Ha & _), Hb as (Hb & _). rewrite Ha in Hb. injection Hb as <-.
    rewrite Hct in Hct'. injection Hct' as <-. exact Heq.
  - now destruct (Hno a).
Qed.

Lemma returns_within_down fuel el a el' :
  named complexTypes el a -> returns_at complexTypes fname fuel el ->
  within complexTypes a el' ->
  exists fuel', fuel' < fuel /\ returns_at complexTypes fname fuel' el'.
Proof.
  intros Hn Hr. induction 1 as [ct el' Hct Hel'|el1 kid _ IH [_ Hkid]].
  - apply (returns_kid fuel el); [exact Hr|]. now rewrite (named_ct el a ct).
  - destruct IH as (f1 & Hlt & Hr1).
    destruct (returns_kid f1 el1 kid Hr1 Hkid) as (f2 & Hlt2 & Hr2).
    exists f2. split; [lia | exact Hr2].
Qed.

(** Along a chain of references the stack that is left shrinks. *)
Lemma returns_along a b :
  tc (refers complexTypes) a b ->
  forall fuel el, named complexTypes el a -> returns_at complexTypes fname fuel el ->
  exists fuel' el', fuel' < fuel /\ named complexTypes el' b /\
                    returns_at complexTypes fname fuel' el'.
Proof.
  induction 1 as [a b (el' & Hw & Hb)|a b c (el' & Hw & Hb) _ IH]; intros fuel el Hn Hr.
  - destruct (returns_within_down fuel el a el' Hn Hr Hw) as (f & Hlt & Hr').
    exists f, el'. auto.
  - destruct (returns_within_down fuel el a el' Hn Hr Hw) as (f & Hlt & Hr').
    destruct (IH f el' Hb Hr') as (f' & el'' & Hlt' & Hc & Hr'').
    exists f', el''. split; [lia | auto].
Qed.

(** On an element whose type is on a cycle of references, [walk] never
    returns. *)
Lemma cycle_never_returns a :
  tc (refers complexTypes) a a ->
  forall fuel el, named complexTypes el a -> ~ returns_at complexTypes fname fuel el.
Proof.
  intros Hc fuel. induction (lt_wf fuel) as [fuel _ IH]. intros el Hn Hr.
  destruct (returns_along a a Hc fuel el Hn Hr) as (f & el' & Hlt & Hn' & Hr').
  exact (IH f Hlt el' Hn' Hr').
Qed.

Lemma reaches_cycle_never_returns a b :
  rtc (refers complexTypes) a b -> tc (refers complexTypes) b b ->
  forall fuel el, named complexTypes el a -> ~ returns_at complexTypes fname fuel el.
Proof.
  intros Hab Hc fuel el Hn Hr.
  apply rtc_tc in Hab as [<-|Hab].
  - exact (cycle_never_returns a Hc fuel el Hn Hr).
  - destruct (returns_along a b Hab fuel el Hn Hr) as (f & el' & _ & Hn' & Hr').
    exact (cycle_never_returns b Hc f el' Hn' Hr').
Qed.

Lemma walk_overflows a b fuel el prefix rows :
  rtc (refers complexTypes) a b -> tc (refers complexTypes) b b ->
  named complexTypes el a ->
  walk fuel complexTypes fname el prefix rows = Throw RangeError.
Proof.
  intros Hab Hc Hn.
  destruct (walk fuel complexTypes fname el prefix rows) as [r|e] eqn:Hw.
  - exfalso. apply (reaches_cycle_never_returns a b Hab Hc fuel el Hn).
    now exists prefix, rows, r.
  - f_equal. now apply walk_throws_range in Hw.
Qed.

End Cycle.
End CycleFacts.



(** ** The entries of the dictionary *)

Module RowFacts.
Import Xsd XsdSpec XsdSpec.

(** [walk] keeps the rows it is given and pushes at least one row, each of
    them the row of a leaf. *)
Lemma walk_pushes fuel complexTypes fname : forall el prefix rows rows',
  walk fuel complexTypes fname el prefix rows = Ok rows' ->
  exists new, rows' = rows ++ new /\ new <> [] /\ Forall (pushed complexTypes fname) new.
Proof.
  induction fuel as [|fuel IH]; intros el prefix rows rows'; [discriminate|].
  rewrite WalkFacts.walk_unfold. destruct (negb _ || _) eqn:Eleaf.
  - intros [= <-]. exists [leaf_row fname el prefix (ct_of complexTypes el)].
    split; [reflexivity|]. split; [discriminate|]. repeat constructor. now exists el, prefix.
  - apply orb_false_elim in Eleaf as [_ Hlen]. apply Nat.eqb_neq in Hlen.
    destruct (childElements (ct_of complexTypes el)) as [|kid kids]; [now contradiction Hlen|].
    clear Hlen. rewrite WalkFacts.loop_cons. cbn [bind].
    destruct (walk fuel complexTypes fname kid _ rows) as [rows1|e] eqn:Ek;
      [|rewrite WalkFacts.loop_throw; discriminate].
    apply IH in Ek as (new1 & -> & Hne & H1).
    revert new1 Hne H1. induction kids as [|k kids IHk]; intros new1 Hne H1.
    + intros [= <-]. now exists new1.
    + rewrite WalkFacts.loop_cons. cbn [bind].
      destruct (walk fuel complexTypes fname k _ (rows ++ new1)) as [rows2|e] eqn:Ek;
        [|rewrite WalkFacts.loop_throw; discriminate].
      apply IH in Ek as (new2 & -> & _ & H2). rewrite <- app_assoc.
      apply IHk; [|now apply Forall_app].
      destruct new1; [now contradiction Hne | discriminate].
Qed.

Lemma discover_pushes fuel fname j rows :
  discover fuel fname j = Ok rows ->
  Forall (pushed (types_of j) fname) rows /\ (rows = [] <-> elements_of j = []).
Proof.
  unfold discover. destruct (negb (truthy (find_schema j))) eqn:Es.
  - intros [= <-]. split; [constructor|]. split; [|reflexivity]. intros _.
    unfold elements_of. apply negb_true_iff in Es.
    destruct (find_schema j) as [[[v|attrs tags]|items]|]; cbn in Es |- *;
      try discriminate; reflexivity.
  - fold (types_of j). fold (elements_of j).
    assert (H : forall elements acc rows,
               Forall (pushed (types_of j) fname) acc ->
               foldl (fun acc gel => rows <- acc ;; walk fuel (types_of j) fname gel "" rows)
                     (Ok acc) elements = Ok rows ->
               Forall (pushed (types_of j) fname) rows /\
               (rows = [] <-> acc = [] /\ elements = [])).
    { induction elements as [|gel elements IH]; intros acc rows' Hacc; cbn [foldl bind].
      - intros [= <-]. split; [exact Hacc|]. tauto.
      - destruct (walk fuel (types_of j) fname gel "" acc) as [rows1|e] eqn:Ek.
        + apply walk_pushes in Ek as (new & -> & Hne & Hnew).
          intros [Hall Hiff]%IH; [|now apply Forall_app]. split; [exact Hall|].
          split; [|intros [_ [=]]]. intros [Happ _]%Hiff.
          apply app_eq_nil in Happ as [_ ->]. now contradiction Hne.
        + intros H. exfalso. clear -H.
          induction elements as [|k ks IHks]; cbn in H; [discriminate|auto]. }
    intros [Hall Hiff]%H; [|constructor]. split; [exact Hall|].
    rewrite Hiff. tauto.
Qed.

(** Rows with distinct keys, none of them seen before, pass the filter. *)
Lemma filter_seen_fixed rows : forall seen,
  NoDup (map key rows) -> (forall r, r ∈ rows -> key r ∉ seen) ->
  filter_seen seen rows = rows.
Proof.
  induction rows as [|r rows IH]; intros seen Hnd Hout; [reflexivity|].
  cbn [filter_seen]. cbn [map] in Hnd. apply NoDup_cons in Hnd as [Hr Hnd].
  rewrite bool_decide_eq_false_2 by (apply Hout, elem_of_cons; now left).
  f_equal. apply IH; [exact Hnd|].
  intros r' Hr' [Heq%elem_of_singleton|Hin]%elem_of_union.
  - apply Hr. rewrite <- Heq. apply list_elem_of_fmap. now exists r'.
  - revert Hin. apply Hout, elem_of_cons. now right.
Qed.

Lemma filter_seen_idem seen rows :
  filter_seen seen (filter_seen seen rows) = filter_seen seen rows.
Proof.
  destruct (XsdFacts.filter_seen_keys seen rows) as [Hnd Hout].
  now apply filter_seen_fixed.
Qed.

Lemma filter_seen_nil rows : filter_seen ∅ rows = [] <-> rows = [].
Proof.
  split; [|now intros ->]. destruct rows as [|r rows]; [reflexivity|].
  cbn [filter_seen]. rewrite bool_decide_eq_false_2 by apply not_elem_of_empty. discriminate.
Qed.

Lemma pathStr_of_cases prefix elName :
  pathStr_of prefix elName = elName \/ pathStr_of prefix elName = prefix +:+ "/" +:+ elName.
Proof. unfold pathStr_of. destruct (Str.truthy prefix); auto. Qed.

Lemma leaf_type_not_empty fname el prefix ct : type (leaf_row fname el prefix ct) <> "".
Proof.
  cbn [leaf_row type]. destruct (tname_of el) as [t|].
  - destruct (Str.truthy t) eqn:Et; [intros ->; discriminate|].
    destruct (bool_decide _); discriminate.
  - destruct (bool_decide _); discriminate.
Qed.

End RowFacts.

(** X6.  Every entry of the dictionary that [parseXsdPaths] returns has the
    name of the file as its schema, a type that is not empty (the local name
    of the [type] attribute, or [complexType] or [simpleType]), and a path
    whose last segment is the name of the entry: the path is the name, or it
    ends with a slash and the name. *)
Theorem X6_entries_carry_file_name_type_and_own_name :
  forall fuel fname j rows,
    Xsd.parseXsdPaths fuel fname j = Ok rows ->
    Forall (fun r => Xsd.schema r = fname /\
                     Xsd.type r <> "" /\
                     (Xsd.path r = Xsd.name r \/
                      exists prefix, Xsd.path r = prefix +:+ "/" +:+ Xsd.name r))
           rows.
Proof.
  intros fuel fname j rows. unfold Xsd.parseXsdPaths.
  destruct (Xsd.discover fuel fname j) as [all|e] eqn:Hd; cbn [bind]; [|discriminate].
  intros [= <-]. apply RowFacts.discover_pushes in Hd as [Hall _].
  rewrite Forall_forall in Hall. apply Forall_forall. intros r Hr.
  eapply elem_of_sublist in Hr; [|apply XsdFacts.filter_seen_sublist].
  destruct (Hall r Hr) as (el & prefix & ->).
  split; [reflexivity|]. split; [apply RowFacts.leaf_type_not_empty|].
  cbn [Xsd.leaf_row Xsd.path Xsd.name].
  destruct (RowFacts.pathStr_of_cases prefix (Xsd.elName_of el)) as [->| ->]; eauto.
Qed.

Lemma X6_witness_invoice :
  Forall (fun r => Xsd.schema r = "invoice.xsd" /\
                   Xsd.type r <> "" /\
                   (Xsd.path r = Xsd.name r \/
                    exists prefix, Xsd.path r = prefix +:+ "/" +:+ Xsd.name r))
         Examples.invoice_rows.
Proof.
  apply (X6_entries_carry_file_name_type_and_own_name 2 "invoice.xsd" Schemas.invoice).
  vm_compute. reflexivity.
Defined.

(** X7.  When [parseXsdPaths] returns, the dictionary is empty exactly when
    the document has no global element (no schema tag is found, or the
    schema holds no [xs:element]): every global element gives at least one
    entry. *)
Theorem X7_dictionary_empty_only_without_global_element :
  forall fuel fname j rows,
    Xsd.parseXsdPaths fuel fname j = Ok rows ->
    (rows = [] <-> XsdSpec.elements_of j = []).
Proof.
  intros fuel fname j rows. unfold Xsd.parseXsdPaths.
  destruct (Xsd.discover fuel fname j) as [all|e] eqn:Hd; cbn [bind]; [|discriminate].
  intros [= <-]. apply RowFacts.discover_pushes in Hd as [_ Hiff].
  now rewrite RowFacts.filter_seen_nil.
Qed.

Lemma X7_witness_invoice :
  Examples.invoice_rows = [] <-> XsdSpec.elements_of Schemas.invoice = [].
Proof.
  apply (X7_dictionary_empty_only_without_global_element 2 "invoice.xsd" Schemas.invoice).
  vm_compute. reflexivity.
Defined.

(** X8.  The filter of the route finds nothing to drop in the dictionary of
    one file: [parseXsdPaths] has dropped the repeated keys already, and
    filtering again changes nothing. *)
Theorem X8_one_file_is_filtered_once :
  forall fuel fname j seen rows,
    Handler.targetDict_of fuel [(fname, j)] = Xsd.parseXsdPaths fuel fname j /\
    Xsd.filter_seen seen (Xsd.filter_seen seen rows) = Xsd.filter_seen seen rows.
Proof.
  intros fuel fname j seen rows. split; [|apply RowFacts.filter_seen_idem].
  unfold Handler.targetDict_of, Handler.collect. cbn [foldl bind fst snd].
  unfold Xsd.parseXsdPaths.
  destruct (Xsd.discover fuel fname j) as [all|e]; cbn [bind app]; [|reflexivity].
  now rewrite RowFacts.filter_seen_idem.
Qed.

(** ** Tables filled by a loop *)

Module MapFacts.

(** A table filled by a loop of conditional assignments holds, at each key,
    the value of the last entry that was assigned to it. *)
Lemma foldl_insert_last {A V} (f : gmap string V -> A -> gmap string V)
    (k : A -> string) (v : A -> V) (ok : A -> bool) (l : list A) :
  (forall m x, f m x = if ok x then <[k x := v x]> m else m) ->
  forall (m : gmap string V) key,
    foldl f m l !! key =
    match last (List.filter (fun x => ok x && String.eqb (k x) key) l) with
    | Some x => Some (v x)
    | None => m !! key
    end.
Proof.
  intros Hf. induction l as [|x l IH]; intros m key; [reflexivity|]. cbn [foldl List.filter].
  rewrite IH, Hf. destruct (ok x) eqn:Eok; cbn [andb].
  - destruct (String.eqb_spec (k x) key) as [<-|Hne].
    + destruct (List.filter _ l) as [|y l'] eqn:Ef.
      * cbn. apply lookup_insert_eq.
      * change (last (x :: y :: l')) with (last (y :: l')).
        destruct (last (y :: l')) eqn:El; [reflexivity|].
        apply last_None in El. discriminate El.
    + destruct (last _); [reflexivity|]. now apply lookup_insert_ne.
  - reflexivity.
Qed.

End MapFacts.

(** X9.  The table of the named complex types holds, under each name, the
    last complex type of the schema that has this name: a later type
    replaces an earlier one, and a type without a name is in no entry.
    (The name [__proto__] is left aside: an assignment to it does not make
    an entry of a JavaScript object.) *)
Theorem X9_last_complex_type_of_a_name_is_used :
  forall cts n,
    n <> "__proto__" ->
    Xsd.index_types cts !! n =
    if Str.truthy n
    then last (List.filter (fun ct => bool_decide (Xsd.attr ct "name" = Some n)) cts)
    else None.
Proof.
  intros cts n _. unfold Xsd.index_types.
  rewrite (MapFacts.foldl_insert_last _ (fun ct => default EmptyString (Xsd.attr ct "name"))
             (fun ct => ct) (fun ct => Xsd.attr_truthy (Xsd.attr ct "name"))).
  2:{ intros m ct. unfold Xsd.attr_truthy. now destruct (Xsd.attr ct "name"). }
  rewrite lookup_empty.
  destruct (Str.truthy n) eqn:En.
  - rewrite (List.filter_ext _ (fun ct => bool_decide (Xsd.attr ct "name" = Some n))).
    + now destruct (last _).
    + intros ct. unfold Xsd.attr_truthy. destruct (Xsd.attr ct "name") as [s|]; cbn.
      * destruct (String.eqb_spec s n) as [->|Hne].
        -- now rewrite En, bool_decide_eq_true_2.
        -- rewrite andb_false_r. symmetry. apply bool_decide_eq_false_2. congruence.
      * symmetry. now apply bool_decide_eq_false_2.
  - rewrite (List.filter_ext _ (fun _ => false)).
    + now induction cts.
    + intros ct. unfold Xsd.attr_truthy. destruct (Xsd.attr ct "name") as [s|]; cbn; [|reflexivity].
      destruct (String.eqb_spec s n) as [->|Hne]; [now rewrite En | apply andb_false_r].
Qed.

Lemma X9_witness_two_types_of_one_name :
  Xsd.index_types [ Xsd.Elem [("name", "T")] [];
                    Xsd.Elem [("name", "T"); ("abstract", "true")] [] ] !! "T"
  = Some (Xsd.Elem [("name", "T"); ("abstract", "true")] []).
Proof.
  rewrite (X9_last_complex_type_of_a_name_is_used
             [ Xsd.Elem [("name", "T")] [];
               Xsd.Elem [("name", "T"); ("abstract", "true")] [] ] "T")
    by discriminate.
  reflexivity.
Defined.

(** X10.  A row whose suggested path is a path of the dictionary is joined
    with the last entry of the dictionary that has this path: it shows the
    schema and the type of that entry, and its bounds around two dots. *)
Theorem X10_matched_path_joins_last_entry :
  forall E targetDict samples idx r p e,
    Oracle.SuggestedTargetPath r = Json.VStr p ->
    last (List.filter (fun e => String.eqb (Xsd.path e) p) targetDict) = Some e ->
    Handler.TargetSchema (Handler.join E (Handler.extraByPath_of targetDict) samples idx r)
      = Xsd.schema e /\
    Handler.TargetType (Handler.join E (Handler.extraByPath_of targetDict) samples idx r)
      = Xsd.type e /\
    Handler.Occurs (Handler.join E (Handler.extraByPath_of targetDict) samples idx r)
      = Xsd.minOccurs e +:+ ".." +:+ Xsd.maxOccurs e.
Proof.
  intros E dict samples idx r p e Hp He.
  cbn [Handler.join Handler.TargetSchema Handler.TargetType Handler.Occurs].
  rewrite Hp. cbn [Handler.Map_get]. unfold Handler.extraByPath_of.
  rewrite (MapFacts.foldl_insert_last _ Xsd.path (fun r => r) (fun _ => true))
    by reflexivity.
  cbn [andb]. rewrite He. cbn [Handler.field_or_empty].
  assert (Hor : forall s, Str.or_else s EmptyString = s) by (now intros []).
  now rewrite !Hor.
Qed.

Lemma X10_witness_two_schemas_one_path :
  Handler.TargetSchema
    (Handler.join Examples.engine
       (Handler.extraByPath_of
          (Examples.invoice_rows ++
           [ {| Xsd.schema := "order.xsd"; Xsd.path := "Invoice/Id"; Xsd.name := "Id";
                Xsd.type := "int"; Xsd.minOccurs := "0"; Xsd.maxOccurs := "1" |} ]))
       ∅ 0
       {| Oracle.SourceField := Json.VStr "Id";
          Oracle.SuggestedTargetPath := Json.VStr "Invoice/Id";
          Oracle.MatchScore := 0.9;
          Oracle.Rationale := Json.VStr "" |}) = "order.xsd".
Proof.
  apply (X10_matched_path_joins_last_entry Examples.engine
           (Examples.invoice_rows ++
            [ {| Xsd.schema := "order.xsd"; Xsd.path := "Invoice/Id"; Xsd.name := "Id";
                 Xsd.type := "int"; Xsd.minOccurs := "0"; Xsd.maxOccurs := "1" |} ])
           ∅ 0
           {| Oracle.SourceField := Json.VStr "Id";
              Oracle.SuggestedTargetPath := Json.VStr "Invoice/Id";
              Oracle.MatchScore := 0.9;
              Oracle.Rationale := Json.VStr "" |}
           "Invoice/Id"
           {| Xsd.schema := "order.xsd"; Xsd.path := "Invoice/Id"; Xsd.name := "Id";
              Xsd.type := "int"; Xsd.minOccurs := "0"; Xsd.maxOccurs := "1" |}).
  - reflexivity.
  - reflexivity.
Defined.

(** ** The samples *)

Module SampleFacts.
Import Json Handler.

Lemma Set_spread_sublist xs : forall seen, sublist (Set_spread seen xs) xs.
Proof.
  induction xs as [|x xs IH]; intros seen; cbn [Set_spread]; [constructor|].
  destruct (bool_decide (x ∈ seen)); constructor; apply IH.
Qed.

Lemma Set_spread_new xs : forall seen,
  NoDup (Set_spread seen xs) /\ forall x, x ∈ Set_spread seen xs -> x ∉ seen.
Proof.
  induction xs as [|x xs IH]; intros seen; cbn [Set_spread].
  - split; [constructor|]. intros x H. inversion H.
  - destruct (bool_decide (x ∈ seen)) eqn:Ex; [apply IH|].
    apply bool_decide_eq_false in Ex. destruct (IH ({[x]} ∪ seen)) as [Hnd Hout]. split.
    + constructor; [|exact Hnd]. intros Hx%Hout. apply Hx, elem_of_union_l, elem_of_singleton.
      reflexivity.
    + intros y [->|Hy]%elem_of_cons; [exact Ex|].
      intros Hin. apply (Hout y Hy). now apply elem_of_union_r.
Qed.

(** Every string of the array is in the spread of the set, or was in the
    set before. *)
Lemma Set_spread_all xs : forall seen x, x ∈ xs -> x ∈ Set_spread seen xs \/ x ∈ seen.
Proof.
  induction xs as [|y xs IH]; intros seen x Hx; [inversion Hx|]. cbn [Set_spread].
  apply elem_of_cons in Hx as [->|Hx].
  - destruct (bool_decide (y ∈ seen)) eqn:Ey.
    + right. now apply bool_decide_eq_true in Ey.
    + left. apply elem_of_cons. now left.
  - destruct (bool_decide (y ∈ seen)) eqn:Ey; [now apply IH|].
    destruct (IH ({[y]} ∪ seen) x Hx) as [H|[->%elem_of_singleton|H]%elem_of_union].
    + left. apply elem_of_cons. now right.
    + left. apply elem_of_cons. now left.
    + now right.
Qed.

(** The first string that passes a test is the same before and after the
    repetitions are dropped. *)
Lemma Set_spread_first (P : string -> bool) d xs : forall seen,
  (forall x, x ∈ seen -> P x = false) ->
  List.hd d (List.filter P (Set_spread seen xs)) = List.hd d (List.filter P xs).
Proof.
  induction xs as [|x xs IH]; intros seen Hseen; [reflexivity|]. cbn [Set_spread List.filter].
  destruct (bool_decide (x ∈ seen)) eqn:Ex.
  - apply bool_decide_eq_true in Ex. rewrite (Hseen x Ex). now apply IH.
  - cbn [List.filter]. destruct (P x) eqn:Px; [reflexivity|]. apply IH.
    intros y [->%elem_of_singleton|Hy]%elem_of_union; [exact Px | now apply Hseen].
Qed.

Lemma filter_sublist {A} (P : A -> bool) l : sublist (List.filter P l) l.
Proof.
  induction l as [|x l IH]; cbn [List.filter]; [constructor|].
  destruct (P x); now constructor.
Qed.

Lemma filter_NoDup {A} (P : A -> bool) l : NoDup l -> NoDup (List.filter P l).
Proof. intros H. eapply sublist_NoDup; [exact H | apply filter_sublist]. Qed.

Lemma hd_take {A} (d : A) n l : List.hd d (take (S n) l) = List.hd d l.
Proof. now destruct l. Qed.

Lemma samples_of_lookup E sourceRows sourceFields c :
  samples_of E sourceRows sourceFields !! c =
  if bool_decide (c ∈ sourceFields) then Some (sample_of E sourceRows c) else None.
Proof.
  unfold samples_of.
  rewrite (MapFacts.foldl_insert_last _ (fun col => col) (sample_of E sourceRows)
             (fun _ => true)) by reflexivity.
  cbn [andb]. rewrite lookup_empty.
  destruct (last _) as [x|] eqn:El.
  - apply last_Some_elem_of, list_elem_of_In, List.filter_In in El as [Hin Heq].
    apply String.eqb_eq in Heq. subst x.
    rewrite bool_decide_eq_true_2; [reflexivity | now apply list_elem_of_In].
  - apply last_None in El. rewrite bool_decide_eq_false_2; [reflexivity|].
    intros Hin%list_elem_of_In.
    assert (Hc : List.In c (List.filter (fun x => String.eqb x c) sourceFields)).
    { apply List.filter_In. split; [exact Hin | apply String.eqb_refl]. }
    rewrite El in Hc. exact Hc.
Qed.

End SampleFacts.

(** X11.  The samples of a column are at most three strings of the column,
    in the order of the rows, all different and none empty; every string of
    the column that is not empty is among them unless there are three
    already. *)
Theorem X11_samples_are_three_distinct_values :
  forall E sourceRows col,
    let values := map (Handler.column_text E col) sourceRows in
    let samples := Handler.sample_of E sourceRows col in
    length samples <= 3 /\
    NoDup samples /\
    Forall (fun s => s <> "") samples /\
    sublist samples values /\
    (forall s, s ∈ values -> s <> "" -> s ∈ samples \/ length samples = 3).
Proof.
  intros E rows col values samples. subst samples. unfold Handler.sample_of. fold values.
  set (distinct := List.filter Str.truthy (Handler.Set_spread ∅ values)).
  assert (Hsub : sublist distinct values).
  { etrans; [apply SampleFacts.filter_sublist | apply SampleFacts.Set_spread_sublist]. }
  assert (Hnd : NoDup distinct).
  { apply SampleFacts.filter_NoDup, SampleFacts.Set_spread_new. }
  split; [rewrite length_take; lia|].
  split; [eapply sublist_NoDup; [exact Hnd | apply sublist_take]|].
  split; [|split; [etrans; [apply sublist_take | exact Hsub]|]].
  - apply Forall_forall. intros s Hs%(elem_of_sublist _ distinct); [|apply sublist_take].
    apply list_elem_of_In, List.filter_In in Hs as [_ Hs]. intros ->. discriminate Hs.
  - intros s Hs Hne.
    assert (Hd : s ∈ distinct).
    { apply list_elem_of_In, List.filter_In. split; [|now destruct s].
      apply list_elem_of_In.
      destruct (SampleFacts.Set_spread_all values ∅ s Hs) as [H|H]; [exact H|].
      now apply not_elem_of_empty in H. }
    destruct (Nat.le_gt_cases (length distinct) 3) as [Hle|Hgt].
    + left. now rewrite take_ge.
    + right. rewrite length_take. lia.
Qed.

(** X12.  In the report of the route, the sample shown for a row whose
    source is a field of the file is the first value of that column, in the
    order of the rows, that is not empty; it is empty when the column has
    no such value. *)
Theorem X12_sample_value_is_first_value_of_the_column :
  forall E sourceRows sourceFields extraByPath idx r c,
    Oracle.SourceField r = Json.VStr c ->
    c ∈ sourceFields ->
    Handler.SampleValue
      (Handler.join E extraByPath (Handler.samples_of E sourceRows sourceFields) idx r)
    = List.hd "" (List.filter Str.truthy (map (Handler.column_text E c) sourceRows)).
Proof.
  intros E rows fields extraByPath idx r c Hsrc Hc.
  cbn [Handler.join Handler.SampleValue]. rewrite Hsrc. cbn [Json.ToString].
  rewrite SampleFacts.samples_of_lookup, bool_decide_eq_true_2 by exact Hc.
  unfold Handler.sample_of.
  rewrite <- (SampleFacts.Set_spread_first Str.truthy "" _ ∅)
    by (intros x Hx; now apply not_elem_of_empty in Hx).
  rewrite <- (SampleFacts.hd_take "" 2).
  now destruct (take 3 _).
Qed.

Lemma X12_witness_first_value_not_empty :
  Handler.SampleValue
    (Handler.join Examples.engine ∅
       (Handler.samples_of Examples.engine
          [Json.VObj [("Id", Json.VStr ""); ("Amount", Json.VStr "7")];
           Json.VObj [("Id", Json.VStr "A1"); ("Amount", Json.VStr "7")];
           Json.VObj [("Id", Json.VStr "A2"); ("Amount", Json.VStr "9")]]
          ["Id"; "Amount"])
       0 (HandlerSpec.placeholder "Id")) = "A1".
Proof.
  apply (X12_sample_value_is_first_value_of_the_column Examples.engine
           [Json.VObj [("Id", Json.VStr ""); ("Amount", Json.VStr "7")];
            Json.VObj [("Id", Json.VStr "A1"); ("Amount", Json.VStr "7")];
            Json.VObj [("Id", Json.VStr "A2"); ("Amount", Json.VStr "9")]]
           ["Id"; "Amount"] ∅ 0 (HandlerSpec.placeholder "Id") "Id").
  - reflexivity.
  - apply elem_of_cons. now left.
Defined.

(** ** The requests of the route *)

Module BatchFacts.
Import Json Handler HandlerSpec.

Lemma starts_bound n len : forall i k, k ∈ starts n i len -> i <= k < len.
Proof.
  induction n as [|n IH]; intros i k; cbn [starts]; [intros H; inversion H|].
  destruct (Nat.ltb_spec i len); [|intros H'; inversion H'].
  intros [->|Hk%IH]%elem_of_cons; lia.
Qed.

(** The blocks of sixty fields, one after the other, are the field list. *)
Lemma batches_cover (fields : list string) n : forall i,
  length fields <= i + 60 * n ->
  concat (map (batch_at fields) (starts n i (length fields))) = drop i fields.
Proof.
  induction n as [|n IH]; intros i Hn; cbn [starts].
  - cbn. symmetry. apply drop_ge. lia.
  - destruct (Nat.ltb_spec i (length fields)).
    + cbn [map concat]. rewrite IH by lia. unfold batch_at.
      rewrite <- drop_drop. apply take_drop.
    + cbn. symmetry. apply drop_ge. lia.
Qed.

Lemma starts_length len n : forall i,
  len <= i + 60 * n -> length (starts n i len) = (len - i + 59) / 60.
Proof.
  induction n as [|n IH]; intros i Hn; cbn [starts].
  - replace (len - i + 59) with 59 by lia. reflexivity.
  - destruct (Nat.ltb_spec i len).
    + cbn [length]. rewrite IH by lia.
      destruct (Nat.le_gt_cases 60 (len - i)) as [Hge|Hlt].
      * replace (len - i + 59) with ((len - (i + 60) + 59) + 1 * 60) by lia.
        rewrite Nat.div_add by lia. lia.
      * replace (len - (i + 60) + 59) with 59 by lia.
        change (59 / 60) with 0.
        apply (Nat.div_unique _ 60 1 (len - i - 1)); lia.
    + replace (len - i + 59) with 59 by lia. reflexivity.
Qed.

Section Loop.
Variable E : builtins.
Variable cfg : Oracle.config.
Variable oracle : nat -> Oracle.payload -> Oracle.reply.
Variable targetDict : list Xsd.row.
Variable samples : gmap string (list string).

(** The loop stops at the first request that fails, with its exception. *)
Lemma batches_first_failure fields k e n : forall i acc,
  k ∈ starts n i (length fields) ->
  (forall k', k' ∈ starts n i (length fields) -> k' < k ->
              exists rows, HandlerSpec.answer_to E cfg oracle fields targetDict samples k' = Ok rows) ->
  HandlerSpec.answer_to E cfg oracle fields targetDict samples k = Throw e ->
  batches E cfg oracle n i fields targetDict samples acc = Throw e.
Proof.
  induction n as [|n IH]; intros i acc; cbn [starts batches]; [intros H; inversion H|].
  destruct (Nat.ltb_spec i (length fields)) as [Hi|Hi];
    [|intros H'; inversion H'].
  replace (i <? length fields) with true by (symmetry; now apply Nat.ltb_lt).
  intros Hk Hbefore Hfail. cbn zeta. apply elem_of_cons in Hk as [->|Hk].
  - unfold HandlerSpec.answer_to in Hfail. now rewrite Hfail.
  - pose proof (starts_bound _ _ _ _ Hk) as Hik.
    destruct (Hbefore i) as [rows Hrows]; [apply elem_of_cons; now left | lia |].
    unfold HandlerSpec.answer_to in Hrows. rewrite Hrows. cbn [bind].
    apply IH; [exact Hk| |exact Hfail].
    intros k' Hk' Hlt. apply Hbefore; [apply elem_of_cons; now right | exact Hlt].
Qed.

End Loop.

Lemma subset_of_lookup (samples : gmap string (list string)) batch c :
  subset_of samples batch !! c = if bool_decide (c ∈ batch) then samples !! c else None.
Proof.
  unfold subset_of.
  rewrite (MapFacts.foldl_insert_last _ (fun k => k) (fun k => default [] (samples !! k))
             (fun k => bool_decide (is_Some (samples !! k)))).
  2:{ intros m k. destruct (samples !! k) as [v|] eqn:Ek.
      - now rewrite bool_decide_eq_true_2 by eauto.
      - rewrite bool_decide_eq_false_2; [reflexivity|]. now intros [v [=]]. }
  rewrite lookup_empty.
  destruct (last _) as [x|] eqn:El.
  - apply last_Some_elem_of, list_elem_of_In, List.filter_In in El as [Hin Hx].
    apply andb_prop in Hx as [Hs Heq]. apply String.eqb_eq in Heq. subst x.
    apply bool_decide_eq_true in Hs as [v Hv].
    rewrite bool_decide_eq_true_2 by (now apply list_elem_of_In). now rewrite Hv.
  - apply last_None in El. destruct (bool_decide (c ∈ batch)) eqn:Ec; [|reflexivity].
    apply bool_decide_eq_true in Ec. destruct (samples !! c) as [v|] eqn:Ev; [|reflexivity].
    exfalso.
    assert (Hc : List.In c (List.filter
                    (fun k => bool_decide (is_Some (samples !! k)) && String.eqb k c) batch)).
    { apply List.filter_In. split; [now apply list_elem_of_In|].
      rewrite String.eqb_refl, andb_true_r. apply bool_decide_eq_true_2. eauto. }
    rewrite El in Hc. exact Hc.
Qed.

End BatchFacts.

(** X13.  The loop of the route sends one request for each block of sixty
    fields: when it returns, its result is the answers to the requests that
    start at the indices 0, 60, 120, ... of the field list, appended in this
    order; the blocks together are the field list, each one holds between
    one and sixty fields, and there are as many as the length of the list
    divided by sixty, rounded up. *)
Theorem X13_requests_are_the_blocks_of_sixty_fields :
  forall E cfg oracle sourceFields targetDict samples results,
    Handler.batches E cfg oracle (length sourceFields) 0 sourceFields targetDict samples []
      = Ok results ->
    let requests := HandlerSpec.starts (length sourceFields) 0 (length sourceFields) in
    (exists chunks,
       Forall2 (fun k chunk =>
                  HandlerSpec.answer_to E cfg oracle sourceFields targetDict samples k
                  = Ok chunk) requests chunks /\
       results = concat chunks) /\
    concat (map (Handler.batch_at sourceFields) requests) = sourceFields /\
    Forall (fun k => 1 <= length (Handler.batch_at sourceFields k) <= 60) requests /\
    length requests = (length sourceFields + 59) / 60.
Proof.
  intros E cfg oracle fields dict samples results H requests. subst requests.
  split; [|split; [|split]].
  - apply HandlerFacts.batches_inv in H as (chunks & Hall & ->). exists chunks.
    split; [exact Hall | reflexivity].
  - rewrite BatchFacts.batches_cover by lia. reflexivity.
  - apply Forall_forall. intros k Hk%BatchFacts.starts_bound.
    unfold Handler.batch_at. rewrite length_take, length_drop. lia.
  - rewrite BatchFacts.starts_length by lia. now rewrite Nat.sub_0_r.
Qed.

Lemma X13_witness_a_hundred_and_thirty_fields :
  exists results,
    Handler.batches Examples.engine Examples.cfg Examples.only_Id 130 0
      (replicate 130 "f") Examples.invoice_rows ∅ [] = Ok results /\
    length (HandlerSpec.starts 130 0 130) = 3.
Proof.
  eexists. split; [vm_compute; reflexivity|].
  exact (proj2 (proj2 (proj2
    (X13_requests_are_the_blocks_of_sixty_fields Examples.engine Examples.cfg
       Examples.only_Id (replicate 130 "f") Examples.invoice_rows ∅ _ eq_refl)))).
Defined.

(** X14.  No request carries more than sixty source fields or more than
    three thousand entries of the dictionary: the entries are the first
    three thousand, in their order, and the sample values are those of the
    fields of the block and of no other field.  (The key [__proto__] is
    left aside: an assignment to it does not make an entry of a JavaScript
    object.) *)
Theorem X14_request_is_bounded :
  forall sourceFields targetDict samples k,
    let batch := Handler.batch_at sourceFields k in
    let request := Oracle.payload_of batch targetDict (Handler.subset_of samples batch) in
    Oracle.source_fields request = batch /\
    length (Oracle.source_fields request) <= 60 /\
    length (Oracle.target_dictionary request) = Nat.min 3000 (length targetDict) /\
    map Oracle.path (Oracle.target_dictionary request) = map Xsd.path (take 3000 targetDict) /\
    (forall c, c <> "__proto__" ->
               Oracle.sample_values request !! c =
               if bool_decide (c ∈ batch) then samples !! c else None).
Proof.
  intros fields dict samples k batch request. subst request.
  cbn [Oracle.payload_of Oracle.source_fields Oracle.target_dictionary Oracle.sample_values].
  split; [reflexivity|].
  split; [subst batch; unfold Handler.batch_at; rewrite length_take; lia|].
  split; [now rewrite length_map, length_take|].
  split; [now rewrite map_map|].
  intros c _. apply BatchFacts.subset_of_lookup.
Qed.

(** X15.  The assembly stops at the first request that fails: when the
    requests before the one at index [k] are answered and that one throws,
    the assembly throws the same exception, whatever the later requests
    would give; no partial report is made. *)
Theorem X15_first_failing_request_aborts :
  forall E cfg oracle sourceFields targetDict samples k e,
    k ∈ HandlerSpec.starts (length sourceFields) 0 (length sourceFields) ->
    (forall k', k' ∈ HandlerSpec.starts (length sourceFields) 0 (length sourceFields) ->
                k' < k ->
                exists rows,
                  HandlerSpec.answer_to E cfg oracle sourceFields targetDict samples k'
                  = Ok rows) ->
    HandlerSpec.answer_to E cfg oracle sourceFields targetDict samples k = Throw e ->
    Handler.assemble E cfg oracle sourceFields targetDict samples = Throw e.
Proof.
  intros E cfg oracle fields dict samples k e Hk Hbefore Hfail. unfold Handler.assemble.
  now rewrite (BatchFacts.batches_first_failure E cfg oracle dict samples fields k e
                 (length fields) 0 [] Hk Hbefore Hfail).
Qed.

Lemma X15_witness_second_request_times_out :
  Handler.assemble Examples.engine Examples.cfg Examples.second_fails
    (replicate 61 "f") Examples.invoice_rows ∅ = Throw (Error "timeout of 120000ms exceeded").
Proof.
  apply (X15_first_failing_request_aborts Examples.engine Examples.cfg Examples.second_fails
           (replicate 61 "f") Examples.invoice_rows ∅ 60).
  - vm_compute. apply elem_of_cons. right. apply elem_of_cons. now left.
  - intros k' Hk' Hlt. vm_compute in Hk'.
    apply elem_of_cons in Hk' as [->|Hk'].
    + eexists. vm_compute. reflexivity.
    + apply elem_of_cons in Hk' as [->|Hk']; [lia | inversion Hk'].
  - vm_compute. reflexivity.
Defined.

(** X16.  The variables of the environment are read when a request is about
    to be sent: with a variable that is empty the assembly of a file that
    has no field returns two empty tables, and the assembly of a file that
    has a field throws [Azure OpenAI env vars missing], whatever the service
    would answer. *)
Theorem X16_missing_configuration_fails_at_the_first_request :
  forall E cfg oracle sourceFields targetDict samples,
    Str.truthy (Oracle.AZURE_ENDPOINT cfg) && Str.truthy (Oracle.AZURE_API_KEY cfg)
      && Str.truthy (Oracle.AZURE_DEPLOYMENT cfg) = false ->
    Handler.assemble E cfg oracle sourceFields targetDict samples =
    match sourceFields with
    | [] => Ok ([], [])
    | _ :: _ => Throw (Error "Azure OpenAI env vars missing")
    end.
Proof.
  intros E cfg oracle fields dict samples Hcfg. unfold Handler.assemble.
  destruct fields as [|c fields]; [reflexivity|].
  cbn [length Handler.batches]. change (0 <? S (length fields)) with true. cbn zeta.
  unfold Oracle.aoaiMapBatch.
  replace (negb (Str.truthy (Oracle.AZURE_ENDPOINT cfg))
           || negb (Str.truthy (Oracle.AZURE_API_KEY cfg))
           || negb (Str.truthy (Oracle.AZURE_DEPLOYMENT cfg))) with true; [reflexivity|].
  destruct (Str.truthy (Oracle.AZURE_ENDPOINT cfg)), (Str.truthy (Oracle.AZURE_API_KEY cfg)),
    (Str.truthy (Oracle.AZURE_DEPLOYMENT cfg)); try reflexivity; discriminate Hcfg.
Qed.

Lemma X16_witness_no_key :
  Handler.assemble Examples.engine
    {| Oracle.AZURE_ENDPOINT := "https://example.openai.azure.com/";
       Oracle.AZURE_API_KEY := "";
       Oracle.AZURE_DEPLOYMENT := "gpt-4o" |}
    Examples.only_Id ["Id"] Examples.invoice_rows ∅
  = Throw (Error "Azure OpenAI env vars missing").
Proof.
  apply (X16_missing_configuration_fails_at_the_first_request Examples.engine
           {| Oracle.AZURE_ENDPOINT := "https://example.openai.azure.com/";
              Oracle.AZURE_API_KEY := "";
              Oracle.AZURE_DEPLOYMENT := "gpt-4o" |}
           Examples.only_Id ["Id"] Examples.invoice_rows ∅).
  reflexivity.
Defined.

(** ** Colours, unreadable scores and the full answer *)

Module ChannelFacts.
Import Color.
Local Open Scope Z_scope.

(** What has to hold of a channel for the round trip, checked on each of
    the 256 values. *)
Lemma channels :
  Forall (fun n : Z =>
            is_nan (Num.of_Z n) = false /\ is_infinity (Num.of_Z n) = false /\
            Num.to_int (Num.of_Z n) = Some n /\
            String.length (Str.padStart2 (Str.hex n)) = 2%nat /\
            Str.hex_prefix (Str.padStart2 (Str.hex n)) None = Some n)
         (map Z.of_nat (seq 0 256)).
Proof. apply (bool_decide_unpack _). vm_compute. reflexivity. Qed.

Lemma channel n :
  0 <= n <= 255 ->
  exists a b, Str.padStart2 (toString16 (Num.of_Z n)) = String a (String b EmptyString) /\
              Str.parseInt16 (String a (String b EmptyString)) = Num.of_Z n.
Proof.
  intros Hn. pose proof channels as H. rewrite Forall_forall in H.
  destruct (H n) as (Hnan & Hinf & Hint & Hlen & Hpre).
  { apply list_elem_of_fmap. exists (Z.to_nat n). split; [lia|].
    apply list_elem_of_In, in_seq. lia. }
  unfold toString16. rewrite Hnan, Hinf, Hint.
  destruct (Str.padStart2 (Str.hex n)) as [|a [|b [|c s]]] eqn:Es; try discriminate Hlen.
  exists a, b. split; [reflexivity|]. unfold Str.parseInt16. now rewrite Hpre.
Qed.

End ChannelFacts.

(** X17.  Three channels between 0 and 255 written by [rgbToHex] are read
    back by [hexToRgb] as they were. *)
Theorem X17_hexToRgb_reads_back_rgbToHex :
  forall r g b : Z,
    (0 <= r <= 255)%Z -> (0 <= g <= 255)%Z -> (0 <= b <= 255)%Z ->
    Color.hexToRgb (Color.rgbToHex [Num.of_Z r; Num.of_Z g; Num.of_Z b])
    = [Num.of_Z r; Num.of_Z g; Num.of_Z b].
Proof.
  intros r g b Hr Hg Hb.
  destruct (ChannelFacts.channel r Hr) as (r1 & r2 & Er & Pr).
  destruct (ChannelFacts.channel g Hg) as (g1 & g2 & Eg & Pg).
  destruct (ChannelFacts.channel b Hb) as (b1 & b2 & Eb & Pb).
  unfold Color.rgbToHex. cbn [map Str.join fold_right]. rewrite Er, Eg, Eb.
  unfold Color.hexToRgb.
  change (Str.remove_first "#" _)
    with (String r1 (String r2 (String g1 (String g2 (String b1 (String b2 EmptyString)))))).
  change (Str.slice 0 2 _) with (String r1 (String r2 EmptyString)).
  change (Str.slice 2 4 _) with (String g1 (String g2 EmptyString)).
  change (Str.slice 4 6 _) with (String b1 (String b2 EmptyString)).
  now rewrite Pr, Pg, Pb.
Qed.

Lemma X17_witness_low_stop :
  Color.hexToRgb (Color.rgbToHex [Num.of_Z 248; Num.of_Z 105; Num.of_Z 107])
  = [Num.of_Z 248; Num.of_Z 105; Num.of_Z 107].
Proof. apply (X17_hexToRgb_reads_back_rgbToHex 248 105 107); lia. Defined.

(** X18.  A score that is no number but a text that [parseFloat] cannot
    read, and that does not end in a percent sign, is rendered differently
    by the two renderers: the workbook reads it as 0 and shows the
    percentage of 0 on the low-confidence colour, the document reads it as
    [NaN] and shows an empty, transparent cell. *)
Theorem X18_unreadable_score_text_is_rendered_differently :
  forall E raw,
    (forall x, raw <> Json.VNum x) ->
    Str.endsWith (Json.ToString E raw) "%" = false ->
    is_nan (Json.parseFloat E (Json.ToString E raw)) = true ->
    Render.excel_cell E raw = {| Render.text := Render.pct E 0; Render.bg := "#FCE4E4" |} /\
    Render.html_cell E raw = {| Render.text := ""; Render.bg := "transparent" |}.
Proof.
  intros E raw Hraw Hpct Hnan.
  assert (He : Render.excel_value E raw = 0%float).
  { unfold Render.excel_value. destruct raw; try (now contradiction (Hraw x));
      rewrite Hpct; unfold Num.or_zero, Num.truthy; now rewrite Hnan. }
  assert (Hm : is_nan (Render.msNum E raw) = true).
  { unfold Render.msNum. destruct raw; try (now contradiction (Hraw x));
      now rewrite Hpct. }
  unfold Render.excel_cell, Render.html_cell, Render.excel_bg, Render.html_bg, Render.html_low,
    Num.isFinite.
  rewrite He, Hm. split; reflexivity.
Qed.

Lemma X18_witness_not_available :
  Render.excel_cell Examples.engine (Json.VStr "n/a")
    = {| Render.text := Render.pct Examples.engine 0; Render.bg := "#FCE4E4" |} /\
  Render.html_cell Examples.engine (Json.VStr "n/a")
    = {| Render.text := ""; Render.bg := "transparent" |}.
Proof.
  apply (X18_unreadable_score_text_is_rendered_differently Examples.engine (Json.VStr "n/a")).
  - intros x. discriminate.
  - reflexivity.
  - reflexivity.
Defined.

Module TotalFacts.
Import Json Handler HandlerSpec.

Section Loop.
Variable E : builtins.
Variable cfg : Oracle.config.
Variable oracle : nat -> Oracle.payload -> Oracle.reply.
Variable targetDict : list Xsd.row.
Variable samples : gmap string (list string).

(** The loop returns the answers to its requests when all are answered. *)
Lemma batches_all_answered fields n : forall i acc chunks,
  Forall2 (fun k chunk => HandlerSpec.answer_to E cfg oracle fields targetDict samples k = Ok chunk)
          (starts n i (length fields)) chunks ->
  batches E cfg oracle n i fields targetDict samples acc = Ok (acc ++ concat chunks).
Proof.
  induction n as [|n IH]; intros i acc chunks; cbn [starts batches].
  - intros ->%Forall2_nil_inv_l. cbn. now rewrite app_nil_r.
  - destruct (i <? length fields).
    + intros (chunk & chunks' & Hk & Hall & ->)%Forall2_cons_inv_l. cbn zeta.
      unfold HandlerSpec.answer_to in Hk. rewrite Hk. cbn [bind concat].
      rewrite (IH _ _ _ Hall). now rewrite app_assoc.
    + intros ->%Forall2_nil_inv_l. cbn. now rewrite app_nil_r.
Qed.

End Loop.

Lemma filter_inside (l : list string) :
  List.filter (fun c => negb (Set_has (map VStr l) c)) l = [].
Proof.
  assert (H : forall l', Forall (fun c => c ∈ l) l' ->
                         List.filter (fun c => negb (Set_has (map VStr l) c)) l' = []).
  { induction 1 as [|c l' Hc Hall IH]; [reflexivity|]. cbn.
    apply HandlerFacts.Set_has_strings in Hc. rewrite Hc. exact IH. }
  apply H, Forall_forall. auto.
Qed.

End TotalFacts.

(** X19.  When every request is answered with one mapping for each field of
    its block, in the order of the block, the report has one row for each
    field of the file and no other row: the rows of [bySource] are in the
    order of the file and numbered from one. *)
Theorem X19_full_answers_give_one_row_per_field :
  forall E cfg oracle sourceFields targetDict samples,
    (forall k, k ∈ HandlerSpec.starts (length sourceFields) 0 (length sourceFields) ->
               exists chunk,
                 HandlerSpec.answer_to E cfg oracle sourceFields targetDict samples k = Ok chunk /\
                 map Oracle.SourceField chunk
                 = map Json.VStr (Handler.batch_at sourceFields k)) ->
    exists bySource byScore,
      Handler.assemble E cfg oracle sourceFields targetDict samples = Ok (bySource, byScore) /\
      map Handler.SourceField bySource = map Json.VStr sourceFields /\
      map Handler.SourceOrder bySource = seq 1 (length sourceFields).
Proof.
  intros E cfg oracle fields dict samples Hans.
  set (ks := HandlerSpec.starts (length fields) 0 (length fields)) in *.
  assert (Hch : exists chunks,
             Forall2 (fun k chunk =>
                        HandlerSpec.answer_to E cfg oracle fields dict samples k = Ok chunk /\
                        map Oracle.SourceField chunk = map Json.VStr (Handler.batch_at fields k))
                     ks chunks).
  { clear -Hans. induction ks as [|k ks IH]; [exists []; constructor|].
    destruct (Hans k) as (chunk & Hk); [apply elem_of_cons; now left|].
    destruct IH as (chunks & Hall); [intros k' Hk'; apply Hans, elem_of_cons; now right|].
    exists (chunk :: chunks). now constructor. }
  destruct Hch as (chunks & Hall).
  assert (Hres : Handler.batches E cfg oracle (length fields) 0 fields dict samples []
                 = Ok (concat chunks)).
  { rewrite (TotalFacts.batches_all_answered E cfg oracle dict samples fields _ _ _ chunks);
      [reflexivity|].
    eapply Forall2_impl; [exact Hall|]. now intros k chunk [Hk _]. }
  assert (Hsrc : map Oracle.SourceField (concat chunks) = map Json.VStr fields).
  { pose proof (BatchFacts.batches_cover fields (length fields) 0 ltac:(lia)) as Hcov.
    rewrite drop_0 in Hcov. fold ks in Hcov. etrans; [|exact (f_equal (map Json.VStr) Hcov)]. clear -Hall.
    induction Hall as [|k chunk ks chunks [_ Hk] _ IH]; [reflexivity|].
    cbn [concat map]. now rewrite !map_app, Hk, IH. }
  unfold Handler.assemble. rewrite Hres. cbn [bind]. eexists. eexists.
  split; [reflexivity|].
  assert (Hback : Handler.backfill fields (concat chunks) = concat chunks).
  { rewrite HandlerFacts.backfill_closed, Hsrc, TotalFacts.filter_inside. apply app_nil_r. }
  rewrite Hback. split.
  - now rewrite HandlerFacts.bySource_SourceField.
  - assert (Hlen : length (concat chunks) = length fields).
    { apply (f_equal length) in Hsrc. now rewrite !length_map in Hsrc. }
    rewrite <- Hlen. generalize (concat chunks) as results. intros results.
    change (map Handler.SourceOrder ?l) with (Handler.SourceOrder <$> l).
    rewrite fmap_imap.
    assert (H : forall n (l : list Oracle.mapped),
               imap (fun i _ => (n + i + 1)%nat) l = seq (S n) (length l)).
    { intros n l. revert n. induction l as [|x l IH]; intros n; [reflexivity|].
      cbn [imap length seq]. f_equal; [lia|].
      rewrite <- (IH (S n)). apply imap_ext. intros i y _. cbn. lia. }
    rewrite <- (H 0%nat). apply imap_ext. intros i x _. reflexivity.
Qed.

Lemma X19_witness_two_fields_answered :
  exists bySource byScore,
    Handler.assemble Examples.engine Examples.cfg Examples.both_fields ["Id"; "Total"]
      Examples.invoice_rows ∅ = Ok (bySource, byScore) /\
    map Handler.SourceField bySource = [Json.VStr "Id"; Json.VStr "Total"] /\
    map Handler.SourceOrder bySource = [1; 2].
Proof.
  apply (X19_full_answers_give_one_row_per_field Examples.engine Examples.cfg
           Examples.both_fields ["Id"; "Total"] Examples.invoice_rows ∅).
  intros k Hk. vm_compute in Hk. apply elem_of_cons in Hk as [->|Hk]; [|inversion Hk].
  eexists. split; vm_compute; reflexivity.
Defined.

(** ** Ties in the table ordered by score *)

Module TieFacts.
Import Json Handler.
Local Open Scope float_scope.

(** Two elements that pass a test stand in the filtered list in the order
    they have in the list. *)
Lemma filter_keeps_order {A} (P : A -> bool) (l : list A) : forall i j a b,
  (i < j)%nat -> l !! i = Some a -> l !! j = Some b -> P a = true -> P b = true ->
  exists i' j', (i' < j')%nat /\ List.filter P l !! i' = Some a /\
                List.filter P l !! j' = Some b.
Proof.
  induction l as [|x l IH]; intros i j a b Hij Ha Hb Pa Pb; [discriminate|].
  destruct j as [|j]; [lia|]. cbn in Hb. destruct i as [|i].
  - cbn in Ha. injection Ha as ->. cbn [List.filter]. rewrite Pa.
    assert (Hin : b ∈ List.filter P l).
    { apply list_elem_of_In, List.filter_In. split; [|exact Pb].
      apply list_elem_of_In. eapply list_elem_of_lookup_2; eauto. }
    apply list_elem_of_lookup in Hin as [j' Hj']. exists 0%nat, (S j'). repeat split; [lia|exact Hj'].
  - cbn in Ha. destruct (IH i j a b) as (i' & j' & Hlt & Hi' & Hj'); [lia|auto..|].
    cbn [List.filter]. destruct (P x).
    + exists (S i'), (S j'). repeat split; [lia|exact Hi'|exact Hj'].
    + exists i', j'. auto.
Qed.

(** The order of a filtered list is the order of the list. *)
Lemma filter_order_back {A} (P : A -> bool) (l : list A) : forall i j a b,
  (i < j)%nat -> List.filter P l !! i = Some a -> List.filter P l !! j = Some b ->
  exists i' j', (i' < j')%nat /\ l !! i' = Some a /\ l !! j' = Some b.
Proof.
  induction l as [|x l IH]; intros i j a b Hij Ha Hb; [discriminate|].
  cbn [List.filter] in Ha, Hb. destruct (P x).
  - destruct j as [|j]; [lia|]. cbn in Hb. destruct i as [|i].
    + cbn in Ha. injection Ha as ->.
      assert (Hin : b ∈ l).
      { apply list_elem_of_lookup_2 in Hb. apply list_elem_of_In, List.filter_In in Hb as [Hb _].
        now apply list_elem_of_In. }
      apply list_elem_of_lookup in Hin as [j' Hj']. exists 0%nat, (S j'). repeat split; [lia|exact Hj'].
    + cbn in Ha. destruct (IH i j a b) as (i' & j' & Hlt & Hi' & Hj'); [lia|auto..|].
      exists (S i'), (S j'). repeat split; [lia|exact Hi'|exact Hj'].
  - destruct (IH i j a b Hij Ha Hb) as (i' & j' & Hlt & Hi' & Hj').
    exists (S i'), (S j'). repeat split; [lia|exact Hi'|exact Hj'].
Qed.

Lemma eqb_refl_not_nan x : is_nan x = false -> (x =? x) = true.
Proof.
  intros H%NumFacts.not_nan_spec. rewrite FloatAxioms.eqb_spec. now apply SF.SFeqb_refl_iff.
Qed.

End TieFacts.

(** X20.  In the table that is ordered by score, rows of the same score
    stand in the order of their [SourceOrder]: of two rows with equal
    scores, the one that comes first has the smaller number. *)
Theorem X20_equal_scores_are_ordered_by_SourceOrder :
  forall E cfg oracle sourceFields targetDict samples bySource byScore,
    Handler.assemble E cfg oracle sourceFields targetDict samples = Ok (bySource, byScore) ->
    forall i j a b,
      i < j -> byScore !! i = Some a -> byScore !! j = Some b ->
      (Handler.MatchScore a =? Handler.MatchScore b)%float = true ->
      Handler.SourceOrder a < Handler.SourceOrder b.
Proof.
  intros E cfg oracle fields dict samples bySource byScore H i j a b Hij Ha Hb Hab.
  pose proof (HandlerFacts.bySource_settled _ _ _ _ _ _ _ _ H) as Hs.
  apply HandlerFacts.assemble_inv in H as (results & _ & Hsrc & ->).
  set (key := fun a => Num.or_zero (Handler.MatchScore a)).
  assert (Hkey : forall x y, (0 <? Handler.by_score x y)%float = (key x <? key y)%float)
    by (intros; apply NumFacts.sub_pos_ltb).
  pose proof (ArrFacts.sort_perm Handler.by_score bySource) as Hperm.
  assert (Hs' : Forall (fun a => HandlerSpec.settled (Handler.MatchScore a))
                       (Arr.sort Handler.by_score bySource))
    by (eapply Permutation_Forall; eauto).
  rewrite Forall_forall in Hs, Hs'.
  set (s := Handler.MatchScore b).
  set (P := fun x => (Handler.MatchScore x =? s)%float).
  assert (Pb : P b = true).
  { apply TieFacts.eqb_refl_not_nan, HandlerFacts.settled_not_nan, Hs'.
    eapply list_elem_of_lookup_2; eauto. }
  assert (Pa : P a = true) by exact Hab.
  destruct (TieFacts.filter_keeps_order P _ i j a b Hij Ha Hb Pa Pb)
    as (i1 & j1 & Hlt1 & Hi1 & Hj1).
  assert (Hst : List.filter P (Arr.sort Handler.by_score bySource) = List.filter P bySource).
  { pose proof (ArrFacts.sort_stable Handler.by_score key Hkey s bySource) as Hst.
    rewrite (List.filter_ext_in P (fun a => key a =? s)%float (Arr.sort _ _)),
            (List.filter_ext_in P (fun a => key a =? s)%float bySource).
    - exact Hst.
    - intros x Hx%list_elem_of_In. unfold P, key. now rewrite (Hs x Hx).
    - intros x Hx%list_elem_of_In. unfold P, key. now rewrite (Hs' x Hx). }
  rewrite Hst in Hi1, Hj1.
  destruct (TieFacts.filter_order_back P _ i1 j1 a b Hlt1 Hi1 Hj1)
    as (i2 & j2 & Hlt2 & Hi2 & Hj2).
  rewrite Hsrc in Hi2, Hj2.
  apply list_lookup_imap_Some in Hi2 as (ra & _ & ->).
  apply list_lookup_imap_Some in Hj2 as (rb & _ & ->).
  cbn [Handler.join Handler.SourceOrder]. lia.
Qed.

Lemma X20_witness_tie_after_the_best :
  exists bySource byScore,
    Handler.assemble Examples.engine Examples.cfg Examples.B_first ["A"; "B"; "C"]
                     Examples.invoice_rows ∅ = Ok (bySource, byScore) /\
    map Handler.SourceOrder byScore = [2; 1; 3] /\
    forall a b, byScore !! 1 = Some a -> byScore !! 2 = Some b ->
                Handler.SourceOrder a < Handler.SourceOrder b.
Proof.
  eexists. eexists. split; [vm_compute; reflexivity|]. split; [vm_compute; reflexivity|].
  intros a b Ha Hb.
  apply (X20_equal_scores_are_ordered_by_SourceOrder Examples.engine Examples.cfg
           Examples.B_first ["A"; "B"; "C"] Examples.invoice_rows ∅ _ _ eq_refl 1 2 a b);
    [lia | exact Ha | exact Hb |].
  vm_compute in Ha, Hb. injection Ha as <-. injection Hb as <-. reflexivity.
Defined.

(** ** The paths of the dictionary *)

Module PrefixFacts.
Import Xsd XsdSpec.

Lemma prefix_nil s : String.prefix EmptyString s = true.
Proof. now destruct s. Qed.

Lemma prefix_refl s : String.prefix s s = true.
Proof.
  induction s as [|a s IH]; [reflexivity|]. cbn [String.prefix].
  destruct (ascii_dec a a) as [_|N]; [exact IH | now contradiction N].
Qed.

Lemma prefix_trans s : forall t u,
  String.prefix s t = true -> String.prefix t u = true -> String.prefix s u = true.
Proof.
  induction s as [|a s IH]; intros t u; [intros _ _; apply prefix_nil|].
  destruct t as [|b t]; [discriminate|]. destruct u as [|c u]; [discriminate|].
  cbn [String.prefix].
  destruct (ascii_dec a b) as [->|]; [|discriminate].
  destruct (ascii_dec b c) as [->|]; [|discriminate].
  destruct (ascii_dec c c) as [_|N]; [apply IH | now contradiction N].
Qed.

Lemma prefix_pathStr prefix elName : String.prefix prefix (pathStr_of prefix elName) = true.
Proof.
  unfold pathStr_of. destruct prefix as [|a p]; [apply prefix_nil|]. apply HtmlFacts.prefix_app.
Qed.

(** The rows that [walk] pushes for an element have paths that start with
    the path of the element. *)
Lemma walk_under fuel complexTypes fname : forall el prefix rows rows',
  walk fuel complexTypes fname el prefix rows = Ok rows' ->
  exists new, rows' = rows ++ new /\
    Forall (fun r => String.prefix (pathStr_of prefix (elName_of el)) (path r) = true) new.
Proof.
  induction fuel as [|fuel IH]; intros el prefix rows rows'; [discriminate|].
  rewrite WalkFacts.walk_unfold. destruct (negb _ || _).
  - intros [= <-]. exists [leaf_row fname el prefix (ct_of complexTypes el)].
    split; [reflexivity|]. repeat constructor. apply prefix_refl.
  - generalize (childElements (ct_of complexTypes el)) as kids. intros kids.
    revert rows rows'. induction kids as [|kid kids IHk]; intros rows rows'.
    + intros [= <-]. exists []. split; [now rewrite app_nil_r | constructor].
    + rewrite WalkFacts.loop_cons. cbn [bind].
      destruct (walk fuel complexTypes fname kid _ rows) as [rows1|e] eqn:Ek;
        [|rewrite WalkFacts.loop_throw; discriminate].
      apply IH in Ek as (new1 & -> & H1).
      intros (new2 & -> & H2)%IHk. exists (new1 ++ new2).
      split; [now rewrite app_assoc|]. apply Forall_app. split; [|exact H2].
      eapply Forall_impl; [exact H1|]. intros r Hr.
      eapply prefix_trans; [apply prefix_pathStr | exact Hr].
Qed.

End PrefixFacts.

(** X21.  The path of every entry of the dictionary starts with the name
    of a global element of the schema: the entries are the leaves under the
    global elements, and the path of a leaf goes through the element it is
    under. *)
Theorem X21_paths_start_at_a_global_element :
  forall fuel fname j rows,
    Xsd.parseXsdPaths fuel fname j = Ok rows ->
    Forall (fun r => exists gel, gel ∈ XsdSpec.elements_of j /\
                                 String.prefix (Xsd.elName_of gel) (Xsd.path r) = true)
           rows.
Proof.
  intros fuel fname j rows. unfold Xsd.parseXsdPaths.
  destruct (Xsd.discover fuel fname j) as [all|e] eqn:Hd; cbn [bind]; [|discriminate].
  intros [= <-]. apply Forall_forall. intros r Hr.
  eapply elem_of_sublist in Hr; [|apply XsdFacts.filter_seen_sublist].
  revert r Hr. apply Forall_forall.
  unfold Xsd.discover in Hd. destruct (negb _); [injection Hd as <-; constructor|].
  fold (XsdSpec.types_of j) in Hd. fold (XsdSpec.elements_of j) in Hd.
  assert (H : forall elements acc rows,
             Forall (fun r => exists gel, gel ∈ acc.2 ++ elements /\
                                          String.prefix (Xsd.elName_of gel) (Xsd.path r) = true)
                    acc.1 ->
             foldl (fun acc gel => rows <- acc ;;
                                   Xsd.walk fuel (XsdSpec.types_of j) fname gel "" rows)
                   (Ok acc.1) elements = Ok rows ->
             Forall (fun r => exists gel, gel ∈ acc.2 ++ elements /\
                                          String.prefix (Xsd.elName_of gel) (Xsd.path r) = true)
                    rows).
  { induction elements as [|gel elements IH]; intros [acc done] rows' Hacc; cbn [foldl bind fst snd] in *.
    - now intros [= <-].
    - destruct (Xsd.walk fuel (XsdSpec.types_of j) fname gel "" acc) as [rows1|e] eqn:Ek.
      + apply PrefixFacts.walk_under in Ek as (new & -> & Hnew).
        intros Hf. specialize (IH (acc ++ new, done ++ [gel]) rows'). cbn [fst snd] in IH.
        rewrite <- app_assoc in IH. apply IH; [|exact Hf].
        apply Forall_app. split; [exact Hacc|].
        eapply Forall_impl; [exact Hnew|]. intros r Hr. exists gel. split; [|exact Hr].
        apply elem_of_app. right. apply elem_of_cons. now left.
      + intros Hf. exfalso. clear -Hf.
        induction elements as [|k ks IHks]; cbn in Hf; [discriminate|auto]. }
  apply (H (XsdSpec.elements_of j) ([], []) all); [constructor | exact Hd].
Qed.

Lemma X21_witness_invoice :
  Forall (fun r => exists gel, gel ∈ XsdSpec.elements_of Schemas.invoice /\
                               String.prefix (Xsd.elName_of gel) (Xsd.path r) = true)
         Examples.invoice_rows.
Proof.
  apply (X21_paths_start_at_a_global_element 2 "invoice.xsd" Schemas.invoice).
  vm_compute. reflexivity.
Defined.
